(** * Post-training quantization notebook: data loader, accuracy metric, driver

    A shallow embedding of the Python classes and driver cells of
    [notebooks/301-tensorflow-training-openvino/301-tensorflow-training-openvino-pot.ipynb]:

    - [Accuracy]                  the [Metric] implementation (cell "Create Accuracy Metric Class");
    - [ClassificationDataLoader]  the [DataLoader] implementation (cell "Create DataLoader Class");
    - [Driver]                    the "POT Optimization" cells (steps 1 to 9).

    Python exceptions are modelled by an error monad, numpy arrays by lists,
    true division of two Python ints by the exact rational quotient. *)

From Stdlib Require Import QArith Ascii.
From stdpp Require Import base list strings sorting.

Local Open Scope string_scope.
Local Open Scope list_scope.

(** ** Python exceptions and the error monad *)

Inductive exn : Set :=
  | IndexError
  | ValueError
  | ZeroDivisionError
  | TypeError
  | OSError
  | KeyError
  | StopIteration
  | ReferenceError.

Inductive result (A : Type) : Type :=
  | Ok (a : A)
  | Raise (e : exn).
Arguments Ok {A} a.
Arguments Raise {A} e.

Definition rbind {A B} (k : A → result B) (m : result A) : result B :=
  match m with
  | Ok a => k a
  | Raise e => Raise e
  end.

#[global] Instance result_ret : MRet result := @Ok.
#[global] Instance result_bind : MBind result := @rbind.

Fixpoint rmapM {A B} (f : A → result B) (l : list A) : result (list B) :=
  match l with
  | [] => Ok []
  | x :: l' => y ← f x; ys ← rmapM f l'; Ok (y :: ys)
  end.

Fixpoint rfoldM {A S} (f : S → A → result S) (s : S) (l : list A) : result S :=
  match l with
  | [] => Ok s
  | x :: l' => s' ← f s x; rfoldM f s' l'
  end.

Definition succeeds {A} (m : result A) : Prop := ∃ a, m = Ok a.

(** A Python dict, with its insertion order. *)
Definition dict (V : Type) : Type := list (string * V).

(** ** Python and numpy primitives used by the notebook *)

(** [l[i]] on a Python list: negative indices count from the end. *)
Definition py_getitem {A} (l : list A) (i : Z) : result A :=
  let n := Z.of_nat (length l) in
  let pos := if (i <? 0)%Z then (n + i)%Z else i in
  if (pos <? 0)%Z then Raise IndexError
  else match l !! Z.to_nat pos with
       | Some x => Ok x
       | None => Raise IndexError
       end.

(** [l.index(x)]: the first position of [x], [ValueError] when absent. *)
Fixpoint py_index `{EqDecision A} (l : list A) (x : A) : result nat :=
  match l with
  | [] => Raise ValueError
  | y :: l' => if decide (y = x) then Ok 0%nat
               else i ← py_index l' x; Ok (S i)
  end.

(** [a / b] on two Python ints: the quotient, [ZeroDivisionError] when
    [b] is zero.  The float result is modelled by the exact rational. *)
Definition py_truediv (a b : nat) : result Q :=
  match b with
  | O => Raise ZeroDivisionError
  | S _ => Ok (Z.of_nat a # Pos.of_nat b)
  end.

Definition Qltb (x y : Q) : bool := negb (Qle_bool y x).

(** [np.argmax] over one row: the first index holding the maximum;
    [ValueError] on an empty row. *)
Fixpoint argmax_from (best : Q) (besti i : nat) (xs : list Q) : nat :=
  match xs with
  | [] => besti
  | x :: xs' =>
      if Qltb best x then argmax_from x i (S i) xs'
      else argmax_from best besti (S i) xs'
  end.

Definition np_argmax (row : list Q) : result nat :=
  match row with
  | [] => Raise ValueError
  | x :: xs => Ok (argmax_from x 0 1 xs)
  end.

(** [np.argmax(a, axis=1)] on a two-dimensional array given by its rows. *)
Definition np_argmax_axis1 (a : list (list Q)) : result (list nat) :=
  rmapM np_argmax a.

(** [predict == target] between a one-dimensional array and a list of
    labels, with numpy broadcasting: equal lengths compare elementwise, a
    length-one operand is stretched.  Any other pair of shapes cannot be
    broadcast; numpy from 1.25 on raises [ValueError] there (earlier
    versions warn and answer a single [False]). *)
Definition np_equal (predict target : list nat) : result (list bool) :=
  if decide (length predict = length target) then
    Ok (zip_with (λ p t, bool_decide (p = t)) predict target)
  else match predict, target with
       | _, [t] => Ok ((λ p, bool_decide (p = t)) <$> predict)
       | [p], _ => Ok ((λ t, bool_decide (p = t)) <$> target)
       | _, _ => Raise ValueError
       end.

Definition count_true (bs : list bool) : nat := length (filter (λ b, b = true) bs).

(** [np.count_nonzero] on a list of one-dimensional boolean arrays: the
    list is first stacked into one two-dimensional array, whose true
    entries are counted; the count is a Python int.  Rows of different
    lengths do not stack: numpy from 1.24 on raises [ValueError]. *)
Definition np_count_nonzero (rows : list (list bool)) : result nat :=
  match rows with
  | [] => Ok 0%nat
  | r :: rest =>
      if forallb (λ r', Nat.eqb (length r') (length r)) rest
      then Ok (count_true (concat rows))
      else Raise ValueError
  end.

(** ** The accuracy metric *)

Module Accuracy.

Record t : Type := mk { _name : string; _matches : list (list bool) }.

(** [__init__] *)
Definition init : t := {| _name := "accuracy"; _matches := [] |}.

(** [value]: [{self._name: self._matches[-1]}] *)
Definition value (self : t) : result (dict (list bool)) :=
  m ← py_getitem (_matches self) (-1);
  Ok [(_name self, m)].

(** [avg_value] *)
Definition avg_value (self : t) : result (dict Q) :=
  num_correct ← np_count_nonzero (_matches self);
  q ← py_truediv num_correct (length (_matches self));
  Ok [(_name self, q)].

(** [update]: [output] is the list of output tensors, [target] the
    annotations of the batch. *)
Definition update (self : t) (output : list (list (list Q))) (target : list nat)
    : result t :=
  logits ← py_getitem output 0;
  predict ← np_argmax_axis1 logits;
  match_ ← np_equal predict target;
  Ok {| _name := _name self; _matches := _matches self ++ [match_] |}.

(** [reset] *)
Definition reset (self : t) : t :=
  {| _name := _name self; _matches := [] |}.

(** [get_attributes] *)
Definition get_attributes (self : t) : dict (dict string) :=
  [(_name self, [("direction", "higher-better"); ("type", "accuracy")])].

(** A whole evaluation pass: the calls to [update], in order. *)
Definition updates (self : t) (calls : list (list (list (list Q)) * list nat))
    : result t :=
  rfoldM (λ s c, update s c.1 c.2) self calls.

End Accuracy.

(** ** Paths and the directory tree under [data_dir] *)

(** A [pathlib.Path]: whether it is absolute, and its components. *)
Record Path : Type := mkPath { absolute : bool; parts : list string }.

#[global] Instance Path_eq_dec : EqDecision Path.
Proof. solve_decision. Defined.

(** [p / name] *)
Definition joinpath (p : Path) (name : string) : Path :=
  {| absolute := absolute p; parts := parts p ++ [name] |}.

(** [p.name]: the final component, empty for a path without components. *)
Definition path_name (p : Path) : string := default "" (last (parts p)).

(** [p.parent] *)
Definition path_parent (p : Path) : Path :=
  {| absolute := absolute p; parts := removelast (parts p) |}.

(** [name.rfind(c)] *)
Fixpoint rfind (c : ascii) (s : string) : option nat :=
  match s with
  | EmptyString => None
  | String a s' =>
      match rfind c s' with
      | Some i => Some (S i)
      | None => if Ascii.eqb a c then Some 0%nat else None
      end
  end.

(** [p.suffix]: the name from its last dot on, when that dot is neither
    the first nor the last character of the name. *)
Definition name_suffix (name : string) : string :=
  match rfind "." name with
  | Some i =>
      if (0 <? i)%nat && (i <? String.length name - 1)%nat
      then String.substring i (String.length name - i) name
      else ""
  | None => ""
  end.

Definition path_suffix (p : Path) : string := name_suffix (path_name p).

(** [Path(raw)] on a path as a string gives it: the components [.] and
    the empty components that doubled slashes leave are dropped. *)
Definition py_Path (raw : Path) : Path :=
  {| absolute := absolute raw;
     parts := filter (λ c, c ≠ "." ∧ c ≠ "") (parts raw) |}.

(** [os.path.join(a, b)]: an absolute [b] discards [a]. *)
Definition os_path_join (a b : Path) : Path :=
  if absolute b then b
  else {| absolute := absolute a; parts := parts a ++ parts b |}.

(** What a directory holds, in the order the operating system lists it. *)
#[warnings="-register-all"]
Inductive entry : Type :=
  | File (name : string)
  | Dir (name : string) (children : list entry).

Definition entry_name (e : entry) : string :=
  match e with
  | File n => n
  | Dir n _ => n
  end.

Definition is_dir (e : entry) : bool :=
  match e with
  | File _ => false
  | Dir _ _ => true
  end.

(** [base.glob("**/*")]: every entry of [base], then those of each
    subdirectory, depth first.  [rglob_below base e] lists what lies
    below the entry [e] of [base]. *)
Fixpoint rglob_below (base : Path) (e : entry) : list Path :=
  match e with
  | File _ => []
  | Dir n children =>
      let d := joinpath base n in
      ((λ c, joinpath d (entry_name c)) <$> children) ++
      flat_map (rglob_below d) children
  end.

Definition rglob (base : Path) (es : list entry) : list Path :=
  ((λ e, joinpath base (entry_name e)) <$> es) ++ flat_map (rglob_below base) es.

(** [base.iterdir()] *)
Definition iterdir (base : Path) (es : list entry) : list (Path * entry) :=
  (λ e, (joinpath base (entry_name e), e)) <$> es.

(** The notebook's global [data_dir] and what the file system holds
    there: [None] when [data_dir] is not an existing directory. *)
Record World : Type := mkWorld {
  data_dir : Path;
  data_dir_entries : option (list entry)
}.

(** [data_dir.glob("**/*")]: nothing when [data_dir] is not a directory. *)
Definition glob_all (w : World) : list Path :=
  match data_dir_entries w with
  | Some es => rglob (data_dir w) es
  | None => []
  end.

(** [Path(data_dir).iterdir()]: fails when [data_dir] is not a directory. *)
Definition iterdir_data_dir (w : World) : result (list (Path * entry)) :=
  match data_dir_entries w with
  | Some es => Ok (iterdir (data_dir w) es)
  | None => Raise OSError
  end.

(** Lexicographic order on strings, as Python compares them. *)
Definition string_le (a b : string) : Prop := String.leb a b.
Definition string_lt (a b : string) : Prop := String.ltb a b.

#[global] Instance string_le_dec : RelDecision string_le.
Proof. intros a b. unfold string_le. apply _. Defined.

(** [sorted(names)] *)
Definition py_sorted (names : list string) : list string :=
  merge_sort string_le names.

(** An image as [cv2] holds it: rows of pixels, three channels each. *)
Definition Image (C : Type) : Type := list (list (C * C * C)).

(** The two [cv2] functions the loader calls.  [imread] answers [None]
    for a path it cannot read. *)
Class Cv2 : Type := {
  imread : Path → option (Image Z);
  resize : Image Z → nat * nat → Image Z
}.

(** [image[:, :, (2, 1, 0)]] *)
Definition reorder_channels {C} (image : Image C) : Image C :=
  map (map (λ px, match px with (c0, c1, c2) => (c2, c1, c0) end)) image.

(** [image.astype(np.float32)] *)
Definition astype_float32 (image : Image Z) : Image Q :=
  map (map (λ px, match px with (c0, c1, c2) => (inject_Z c0, inject_Z c1, inject_Z c2) end)) image.

(** ** The data loader *)

Module ClassificationDataLoader.

Record t : Type := mk {
  data_source : Path;
  dataset : list Path;
  class_names : list string
}.

Definition has_image_suffix (p : Path) : bool :=
  bool_decide (path_suffix p ∈ [".png"; ".jpg"]).

(** [__init__]; [Path(data_source)] is [data_source] itself here. *)
Definition init (w : World) (data_source : Path) : result t :=
  let dataset := filter (λ p, has_image_suffix p) (glob_all w) in
  items ← iterdir_data_dir w;
  let class_names :=
    py_sorted ((λ item, path_name item.1) <$> filter (λ item, is_dir item.2) items) in
  Ok {| data_source := data_source; dataset := dataset; class_names := class_names |}.

(** [__len__] *)
Definition len (self : t) : Z := Z.of_nat (length (dataset self)).

(** [_read_image] *)
Definition _read_image `{Cv2} (self : t) (index : Path) : result (Image Q) :=
  match imread (os_path_join (data_source self) index) with
  | None => Raise TypeError
  | Some raw =>
      let image := reorder_channels raw in
      Ok (astype_float32 (resize image (180%nat, 180%nat)))
  end.

(** [__getitem__] *)
Definition __getitem__ `{Cv2} (self : t) (index : Z) : result ((Z * nat) * Image Q) :=
  if (len self <=? index)%Z then Raise IndexError
  else
    filepath ← py_getitem (dataset self) index;
    class_index ← py_index (class_names self) (path_name (path_parent filepath));
    let annotation := (index, class_index) in
    image ← _read_image self filepath;
    Ok (annotation, image).

End ClassificationDataLoader.

(** ** The quantization driver *)

Module Driver.

(** Model objects live in a store and are handled through references, so
    that an alias and a deep copy differ. *)
Definition ref : Type := nat.

(** The compression toolkit in a run in which every call returns, as far
    as the driver calls it.  [Model] is the content of a model object
    (graph and weights).
    - [load_model] reads the artifact named by the configuration;
    - [run_algorithms] is what [pipeline.run] makes of the object it is given;
    - [compress_weights] is what [compress_model_weights] makes of it;
    - [save_model] answers the list of saved files, one dict per model;
    - [evaluate] answers the metric results, [None] without a metric. *)
Class Toolkit (Model : Type) : Type := {
  load_model : Model;
  run_algorithms : Model → Model;
  compress_weights : Model → Model;
  save_model : Model → Path → list (dict Path);
  evaluate : Model → option (dict Q)
}.

(** The toolkit calls as the cells make them: each one may raise.
    - [call_load_model] is [load_model(model_config=model_config)];
    - [call_deepcopy model] is [copy.deepcopy(model)]: the content of the
      copy;
    - [call_pipeline_run data_loader metric model] is what steps 4 to 6
      make of the model: the engine is built on the data loader and the
      metric, the pipeline on the engine, and the pipeline is run;
    - [call_compress_model_weights] is [compress_model_weights(model=...)];
    - [call_save_model] is [save_model(model=..., save_path=...)];
    - [call_pipeline_evaluate] is [pipeline.evaluate(...)], for the
      pipeline that step 5 made. *)
Class Calls (Model : Type) : Type := {
  call_load_model : result Model;
  call_deepcopy : Model → result Model;
  call_pipeline_run :
    ClassificationDataLoader.t → Accuracy.t → Model → result Model;
  call_compress_model_weights : Model → result Model;
  call_save_model : Model → Path → result (list (dict Path));
  call_pipeline_evaluate : Model → result (option (dict Q))
}.

(** A [Toolkit] gives the calls of a run in which every call returns. *)
Definition Toolkit_Calls {Model : Type} (T : Toolkit Model) : Calls Model :=
  {| call_load_model := Ok load_model;
     call_deepcopy := λ model, Ok model;
     call_pipeline_run := λ _ _ model, Ok (run_algorithms model);
     call_compress_model_weights := λ model, Ok (compress_weights model);
     call_save_model := λ model path, Ok (save_model model path);
     call_pipeline_evaluate := λ model, Ok (evaluate model) |}.
#[global] Existing Instance Toolkit_Calls.
Coercion Toolkit_Calls : Toolkit >-> Calls.

(** What the cells print. *)
Inductive line : Type :=
  | Stored_in (p : Path)
  | Accuracy_original (v : Q)
  | Accuracy_quantized (v : Q).

Record state (Model : Type) : Type := mkState {
  store : list Model;
  loads : nat;
  stdout : list line
}.
Arguments mkState {Model} store loads stdout.
Arguments store {Model} s.
Arguments loads {Model} s.
Arguments stdout {Model} s.

Definition initial {Model} : state Model :=
  {| store := []; loads := 0; stdout := [] |}.

(** Computations of the driver: they may raise, and they thread the state. *)
Definition M (Model A : Type) : Type := state Model → result (A * state Model).

Definition mreturn {Model A} (a : A) : M Model A := λ s, Ok (a, s).

Definition mthen {Model A B} (k : A → M Model B) (m : M Model A) : M Model B :=
  λ s, match m s with
       | Ok (a, s') => k a s'
       | Raise e => Raise e
       end.

#[global] Instance M_ret {Model} : MRet (M Model) := @mreturn Model.
#[global] Instance M_bind {Model} : MBind (M Model) := @mthen Model.

Definition lift {Model A} (r : result A) : M Model A :=
  λ s, match r with
       | Ok a => Ok (a, s)
       | Raise e => Raise e
       end.

Definition alloc {Model} (m : Model) : M Model ref :=
  λ s, Ok (length (store s),
           {| store := store s ++ [m]; loads := loads s; stdout := stdout s |}).

(** A reference always names a live object: [ReferenceError] is not
    reachable from the cells below. *)
Definition deref {Model} (r : ref) : M Model Model :=
  λ s, match store s !! r with
       | Some m => Ok (m, s)
       | None => Raise ReferenceError
       end.

Definition mutate {Model} (r : ref) (f : Model → Model) : M Model unit :=
  λ s, match store s !! r with
       | Some m => Ok (tt, {| store := <[r := f m]> (store s);
                              loads := loads s; stdout := stdout s |})
       | None => Raise ReferenceError
       end.

Definition print {Model} (l : line) : M Model unit :=
  λ s, Ok (tt, {| store := store s; loads := loads s; stdout := stdout s ++ [l] |}).

Definition count_load {Model} : M Model unit :=
  λ s, Ok (tt, {| store := store s; loads := S (loads s); stdout := stdout s |}).

Section cells.
Context {Model : Type} `{Calls Model}.

(** [load_model(model_config=model_config)]: a new object. *)
Definition do_load_model : M Model ref :=
  _ ← count_load; loaded ← lift call_load_model; alloc loaded.

(** [copy.deepcopy(model)]: a new object with the same content. *)
Definition deepcopy (r : ref) : M Model ref :=
  m ← deref r; copy ← lift (call_deepcopy m); alloc copy.

(** [IEEngine(...)], [create_pipeline(...)] and [pipeline.run(model=model)]:
    the pipeline works on the object it is given and answers it. *)
Definition pipeline_run (data_loader : ClassificationDataLoader.t)
    (metric : Accuracy.t) (r : ref) : M Model ref :=
  m ← deref r;
  quantized ← lift (call_pipeline_run data_loader metric m);
  _ ← mutate r (λ _, quantized);
  mret r.

(** [compress_model_weights(model=...)]: in place. *)
Definition compress_model_weights (r : ref) : M Model unit :=
  m ← deref r;
  compressed ← lift (call_compress_model_weights m);
  mutate r (λ _, compressed).

(** [d[key]] on a dict. *)
Fixpoint dict_getitem {V} (d : dict V) (key : string) : result V :=
  match d with
  | [] => Raise KeyError
  | (k, v) :: d' => if decide (k = key) then Ok v else dict_getitem d' key
  end.

(** [pipeline.evaluate(model)] *)
Definition pipeline_evaluate (r : ref) : M Model (option (dict Q)) :=
  m ← deref r; lift (call_pipeline_evaluate m).

(** Truth value of a metric result: [None] and the empty dict are false. *)
Definition truthy {V} (results : option (dict V)) : bool :=
  match results with
  | Some (_ :: _) => true
  | _ => false
  end.

(** [next(iter(results.values()))] *)
Definition first_value {V} (results : option (dict V)) : result V :=
  match results with
  | None => Raise TypeError
  | Some [] => Raise StopIteration
  | Some ((_, v) :: _) => Ok v
  end.

(** Steps 1 to 8; answers the references bound to [original_model] and
    [compressed_model]. *)
Definition optimize (w : World) : M Model (ref * ref) :=
  model ← do_load_model;
  original_model ← deepcopy model;
  data_loader ← lift (ClassificationDataLoader.init w (data_dir w));
  let metric := Accuracy.init in
  compressed_model ← pipeline_run data_loader metric model;
  _ ← compress_model_weights compressed_model;
  saved ← deref compressed_model;
  compressed_model_paths ←
    lift (call_save_model saved
            (os_path_join {| absolute := false; parts := ["."] |}
                          {| absolute := false; parts := ["model"; "optimized"] |}));
  first ← lift (py_getitem compressed_model_paths 0);
  raw ← lift (dict_getitem first "model");
  let compressed_model_xml := py_Path raw in
  _ ← print (Stored_in compressed_model_xml);
  mret (original_model, compressed_model).

(** Step 9 *)
Definition report (original_model compressed_model : ref) : M Model unit :=
  original_metric_results ← pipeline_evaluate original_model;
  _ ← (if truthy original_metric_results
       then v ← lift (first_value original_metric_results); print (Accuracy_original v)
       else mret tt);
  quantized_metric_results ← pipeline_evaluate compressed_model;
  if truthy quantized_metric_results
  then v ← lift (first_value quantized_metric_results); print (Accuracy_quantized v)
  else mret tt.

(** The two cells in sequence. *)
Definition main (w : World) : M Model unit :=
  models ← optimize w;
  report models.1 models.2.

End cells.

End Driver.

(** ** The inference and benchmark cells *)

(** An image as [PIL] holds it: its size (width, height), its number of
    bands, and the pixel values row by row, the bands of a pixel next to
    each other. *)
Record PILImage : Type := mkPIL {
  pil_size : nat * nat;
  pil_bands : nat;
  pil_data : list Z
}.

(** The two [PIL] calls of [pre_process_image]: [Image.open(path)] and
    [image.resize(size, resample=Image.BILINEAR)]. *)
Class PIL : Type := {
  Image_open : Path → result PILImage;
  Image_resize : PILImage → nat * nat → result PILImage
}.

(** A numpy array: its shape and its values in row-major order. *)
Record ndarray : Type := mkArray { shape : list nat; data : list Z }.

(** [a.size]: the product of the dimensions. *)
Definition np_size (dims : list nat) : nat := foldr Nat.mul 1%nat dims.

(** [np.array(image)]: height by width for a one-band image, height by
    width by bands otherwise. *)
Definition np_array (image : PILImage) : ndarray :=
  {| shape := if decide (pil_bands image = 1%nat)
              then [(pil_size image).2; (pil_size image).1]
              else [(pil_size image).2; (pil_size image).1; pil_bands image];
     data := pil_data image |}.

(** [a.reshape(new_shape)]: the same values under a new shape,
    [ValueError] when the sizes differ. *)
Definition np_reshape (a : ndarray) (new_shape : list nat) : result ndarray :=
  if decide (np_size new_shape = np_size (shape a))
  then Ok {| shape := new_shape; data := data a |}
  else Raise ValueError.

(** [pre_process_image(imagePath, img_height)] *)
Definition pre_process_image `{PIL} (imagePath : Path) (img_height : nat)
    : result ndarray :=
  let n := 1%nat in
  let c := 3%nat in
  let h := img_height in
  let w := img_height in
  image ← Image_open imagePath;
  image ← Image_resize image (h, w);
  let image := np_array image in
  let input_image := np_reshape image [n; h; w; c] in
  input_image.

(** [class_names[np.argmax(score)]] of the inference cell. *)
Definition predicted_class_name (class_names : list string) (score : list Q)
    : result string :=
  i ← np_argmax score;
  py_getitem class_names (Z.of_nat i).

(** [l[start:]] on a Python list: a negative start counts from the end,
    and a start out of range is clipped. *)
Definition py_slice_from {A} (l : list A) (start : Z) : list A :=
  let n := Z.of_nat (length l) in
  let first := if (start <? 0)%Z then Z.max (n + start) 0 else Z.min start n in
  drop (Z.to_nat first) l.

(** [benchmark_output[-8:]] of the benchmark cells. *)
Definition benchmark_result (benchmark_output : list string) : list string :=
  py_slice_from benchmark_output (-8).

(** ** Notions used in the statements *)

(** [p] is the arg-max of [row]: it holds a maximum of the row, and
    every earlier entry is strictly smaller. *)
Definition is_argmax (row : list Q) (p : nat) : Prop :=
  ∃ x, row !! p = Some x ∧
       (∀ j y, row !! j = Some y → (y <= x)%Q) ∧
       (∀ j y, row !! j = Some y → (j < p)%nat → (y < x)%Q).



(** A file name the loader takes for an image. *)
Definition is_image_name (name : string) : bool :=
  bool_decide (name_suffix name ∈ [".png"; ".jpg"]).



(** The category names [K] counts, and the image files [N] counts. *)
Definition category_names (es : list entry) : list string :=
  entry_name <$> filter (λ e, is_dir e = true) es.





(** Sample data for the examples. *)
Definition sample_cv2 : Cv2 :=
  {| imread := λ _, Some [[(10, 20, 30)%Z]]; resize := λ image _, image |}.

Definition flowers : Path := {| absolute := true; parts := ["data"; "flower_photos"] |}.

Definition flowers_world : World :=
  {| data_dir := flowers;
     data_dir_entries := Some
       [ File "LICENSE.txt";
         Dir "roses" [File "r1.jpg"; File "r2.png"; File "notes.txt"];
         Dir "daisy" [File "d1.jpg"] ] |}.


Definition stray_world : World :=
  {| data_dir := flowers;
     data_dir_entries := Some [ File "stray.jpg"; Dir "daisy" [File "d1.jpg"] ] |}.

Definition stray_loader : ClassificationDataLoader.t :=
  {| ClassificationDataLoader.data_source := flowers;
     ClassificationDataLoader.dataset :=
       [joinpath flowers "stray.jpg"; joinpath (joinpath flowers "daisy") "d1.jpg"];
     ClassificationDataLoader.class_names := ["daisy"] |}.

Definition daisy_loader : ClassificationDataLoader.t :=
  {| ClassificationDataLoader.data_source := flowers;
     ClassificationDataLoader.dataset := [joinpath (joinpath flowers "daisy") "d1.jpg"];
     ClassificationDataLoader.class_names := ["daisy"] |}.

(** What step 9 prints for one model: one line with the first metric
    value, nothing for an absent or empty result. *)
Definition printed {V} (mk : V → Driver.line) (results : option (dict V))
    : list Driver.line :=
  match results with
  | Some ((_, v) :: _) => [mk v]
  | _ => []
  end.

(** The path step 8 saves to, and the saved file the driver reports. *)
Definition save_path : Path :=
  os_path_join {| absolute := false; parts := ["."] |}
               {| absolute := false; parts := ["model"; "optimized"] |}.

Definition reported_path (saved : list (dict Path)) : result Path :=
  first ← py_getitem saved 0; Driver.dict_getitem first "model".

(** A toolkit for the examples: a model is a number, quantizing adds one
    to it, and only even models have a metric result. *)
Definition sample_toolkit : Driver.Toolkit nat :=
  {| Driver.load_model := 4%nat;
     Driver.run_algorithms := λ m, S m;
     Driver.compress_weights := λ m, m;
     Driver.save_model := λ m p, [[("model", joinpath p "flower.xml")]];
     Driver.evaluate := λ m, if Nat.even m then Some [("accuracy", 3 # 4)] else None |}.

(** [base] extended by the names of a chain of nested entries. *)
Definition extend (base : Path) (names : list string) : Path :=
  foldl joinpath base names.

(** [below es names]: [names] is a chain of nested entries that starts
    in the directory holding [es]. *)
Inductive below : list entry → list string → Prop :=
  | below_here es e :
      e ∈ es → below es [entry_name e]
  | below_deeper es name children names :
      Dir name children ∈ es → below children names → below es (name :: names).

(** What [rglob_below] is to list for an entry: the chains found below
    it, when it is a directory. *)
Definition rglob_below_spec (e : entry) : Prop :=
  ∀ base p,
    p ∈ rglob_below base e ↔
    ∃ name children names,
      e = Dir name children ∧ below children names ∧
      p = extend (joinpath base name) names.

(** A [PIL] for the examples: every file opens as a 2 by 1 image with
    [bands] bands, and resizing gives a black image of the size asked for. *)
Definition sample_pil (bands : nat) : PIL :=
  {| Image_open := λ _, Ok {| pil_size := (2, 1)%nat; pil_bands := bands;
                              pil_data := replicate (2 * bands) 7%Z |};
     Image_resize := λ image size,
       Ok {| pil_size := size; pil_bands := pil_bands image;
             pil_data := replicate (size.1 * size.2 * pil_bands image) 0%Z |} |}.

(** * Properties *)

(** ** The error monad *)

Lemma rbind_Ok {A B} (m : result A) (k : A → result B) b :
  (m ≫= k) = Ok b ↔ ∃ a, m = Ok a ∧ k a = Ok b.
Proof.
  unfold mbind, result_bind, rbind. destruct m as [a|e]; split.
  - intros Hk. by exists a.
  - by intros (a' & [= <-] & Hk).
  - done.
  - by intros (a' & [=] & _).
Qed.

Lemma rmapM_length {A B} (f : A → result B) l ys :
  rmapM f l = Ok ys → length ys = length l.
Proof.
  revert ys. induction l as [|x l IH]; intros ys; simpl.
  - by intros [= <-].
  - intros (y & Hy & Hrest)%rbind_Ok.
    apply rbind_Ok in Hrest as (ys' & Hys' & [= <-]).
    simpl. f_equal. by apply IH.
Qed.

Lemma rmapM_lookup {A B} (f : A → result B) l ys i x :
  rmapM f l = Ok ys → l !! i = Some x → ∃ y, f x = Ok y ∧ ys !! i = Some y.
Proof.
  revert ys i. induction l as [|x0 l IH]; intros ys i; simpl; [done|].
  intros (y & Hy & (ys' & Hys' & [= <-])%rbind_Ok)%rbind_Ok.
  destruct i as [|i]; simpl.
  - intros [= <-]. eauto.
  - intros Hi. by eapply IH.
Qed.

Lemma rmapM_Ok {A B} (f : A → result B) l :
  Forall (λ x, succeeds (f x)) l → succeeds (rmapM f l).
Proof.
  induction 1 as [|x l [y Hy] _ [ys Hys]]; simpl.
  - by eexists.
  - exists (y :: ys). rewrite Hy. simpl. by rewrite Hys.
Qed.

(** ** numpy primitives *)

Lemma Qltb_lt x y : Qltb x y = true ↔ (x < y)%Q.
Proof.
  unfold Qltb. rewrite negb_true_iff, <- not_true_iff_false, Qle_bool_iff.
  split; [apply Qnot_le_lt | apply Qlt_not_le].
Qed.

Lemma Qltb_ge x y : Qltb x y = false ↔ (y <= x)%Q.
Proof.
  unfold Qltb. rewrite negb_false_iff. apply Qle_bool_iff.
Qed.

Lemma argmax_from_spec xs : ∀ pre best besti,
  pre !! besti = Some best →
  (∀ j y, pre !! j = Some y → (y <= best)%Q) →
  (∀ j y, pre !! j = Some y → (j < besti)%nat → (y < best)%Q) →
  is_argmax (pre ++ xs) (argmax_from best besti (length pre) xs).
Proof.
  induction xs as [|x xs IH]; intros pre best besti Hbest Hmax Hfirst; simpl.
  - rewrite app_nil_r. by exists best.
  - replace (pre ++ x :: xs) with ((pre ++ [x]) ++ xs) by by rewrite <- app_assoc.
    replace (S (length pre)) with (length (pre ++ [x]))
      by (rewrite length_app; simpl; lia).
    destruct (Qltb best x) eqn:Hcmp.
    + apply Qltb_lt in Hcmp. apply IH.
      * by rewrite lookup_app_r, Nat.sub_diag.
      * intros j y Hj. apply lookup_app_Some in Hj as [Hj | [_ Hj]].
        -- apply Qle_trans with best; [by eapply Hmax | by apply Qlt_le_weak].
        -- apply list_lookup_singleton_Some in Hj as [_ <-]. apply Qle_refl.
      * intros j y Hj Hlt. apply lookup_app_Some in Hj as [Hj | [Hge _]]; [|lia].
        apply Qle_lt_trans with best; [by eapply Hmax | done].
    + apply Qltb_ge in Hcmp. apply IH.
      * by apply lookup_app_l_Some.
      * intros j y Hj. apply lookup_app_Some in Hj as [Hj | [_ Hj]].
        -- by eapply Hmax.
        -- by apply list_lookup_singleton_Some in Hj as [_ <-].
      * intros j y Hj Hlt. apply lookup_app_Some in Hj as [Hj | [Hge _]].
        -- by eapply Hfirst.
        -- apply lookup_lt_Some in Hbest. lia.
Qed.

Lemma np_argmax_spec row :
  row ≠ [] → ∃ p, np_argmax row = Ok p ∧ is_argmax row p.
Proof.
  destruct row as [|x xs]; [done|]. intros _. eexists. split; [done|].
  apply (argmax_from_spec xs [x] x 0%nat).
  - done.
  - intros j y Hj. apply list_lookup_singleton_Some in Hj as [_ <-]. apply Qle_refl.
  - intros j y _ Hlt. lia.
Qed.

(** ** The accuracy metric *)






(** C9: reading the last value while nothing is recorded, that is right
    after construction or after [reset], raises [IndexError]; no value
    is returned. *)
Theorem value_on_empty_raises (self : Accuracy.t) :
  Accuracy.value Accuracy.init = Raise IndexError ∧
  Accuracy.value (Accuracy.reset self) = Raise IndexError.
Proof. split; reflexivity. Qed.

(** Whatever the batch size, the average divides the number of true
    entries by the number of recorded entries, that is of [update] calls. *)
Lemma avg_value_stacked (self : Accuracy.t) (m : list bool) (ms : list (list bool)) :
  Accuracy._matches self = m :: ms →
  Forall (λ r, length r = length m) ms →
  Accuracy.avg_value self =
    Ok [(Accuracy._name self,
         Z.of_nat (count_true (concat (m :: ms))) # Pos.of_nat (S (length ms)))].
Proof.
  intros Hmatches Hrect. unfold Accuracy.avg_value. rewrite Hmatches.
  unfold np_count_nonzero. replace (forallb _ ms) with true; [done|].
  symmetry. apply forallb_forall. intros r Hr%list_elem_of_In.
  apply Nat.eqb_eq. by eapply (proj1 (Forall_forall _ _) Hrect).
Qed.

(** C3: after [reset] nothing is recorded, and reading the average while
    nothing is recorded (after [reset], after construction, or in any
    state with an empty sequence) fails with [ZeroDivisionError]: no
    number is produced. *)
Theorem avg_value_on_empty_raises (self : Accuracy.t) (name : string) :
  Accuracy._matches (Accuracy.reset self) = [] ∧
  length (Accuracy._matches (Accuracy.reset self)) = 0%nat ∧
  Accuracy.avg_value (Accuracy.reset self) = Raise ZeroDivisionError ∧
  Accuracy.avg_value Accuracy.init = Raise ZeroDivisionError ∧
  Accuracy.avg_value {| Accuracy._name := name; Accuracy._matches := [] |}
    = Raise ZeroDivisionError.
Proof. repeat split. Qed.

Lemma Qmake_of_nat (c m : nat) :
  m ≠ 0%nat →
  (Z.of_nat c # Pos.of_nat m == inject_Z (Z.of_nat c) / inject_Z (Z.of_nat m))%Q.
Proof.
  intros Hm. rewrite Qmake_Qdiv.
  replace (Z.pos (Pos.of_nat m)) with (Z.of_nat m); [reflexivity|].
  rewrite <- (Nat2Pos.id m) at 1 by done. by rewrite positive_nat_Z.
Qed.




Lemma np_equal_same_length (predict target : list nat) :
  length predict = length target →
  np_equal predict target = Ok (zip_with (λ p t, bool_decide (p = t)) predict target).
Proof. intros Hlen. unfold np_equal. by rewrite decide_True. Qed.

Lemma py_getitem_last {A} (l : list A) (x : A) :
  py_getitem (l ++ [x]) (-1) = Ok x.
Proof.
  unfold py_getitem. rewrite length_app. simpl.
  replace (Z.of_nat (length l + 1) + -1)%Z with (Z.of_nat (length l)) by lia.
  destruct (Z.ltb_spec (Z.of_nat (length l)) 0); [lia|].
  by rewrite Nat2Z.id, lookup_app_r, Nat.sub_diag.
Qed.

(** C6, the claim as stated fails: after a call with a batch of two
    samples the last-value accessor returns the entry of two flags, not a
    single boolean. *)
Lemma value_of_batched_update :
  ∃ acc,
    Accuracy.update Accuracy.init [[[1; 3; 2]; [5; 0; 0]]%Q] [1%nat; 2%nat] = Ok acc ∧
    Accuracy.value acc = Ok [("accuracy", [true; false])] ∧
    ∀ b : bool, Accuracy.value acc ≠ Ok [("accuracy", [b])].
Proof. eexists. split; [reflexivity|]. split; [reflexivity|]. by intros b. Qed.

(** C6, amended: on a batch whose rows are non-empty and which has one
    target per row, [update] appends exactly one entry to the recorded
    sequence; the entry holds, for each sample, whether the arg-max of
    its row equals its target; the last-value accessor then returns that
    entry, which is a single boolean when the batch is one sample. *)
Theorem update_appends_match (self : Accuracy.t)
    (logits : list (list Q)) (rest : list (list (list Q))) (target : list nat) :
  Forall (λ row, row ≠ []) logits →
  length target = length logits →
  ∃ m acc,
    Accuracy.update self (logits :: rest) target = Ok acc ∧
    Accuracy._name acc = Accuracy._name self ∧
    Accuracy._matches acc = Accuracy._matches self ++ [m] ∧
    length (Accuracy._matches acc) = S (length (Accuracy._matches self)) ∧
    length m = length logits ∧
    (∀ i row t, logits !! i = Some row → target !! i = Some t →
       ∃ p, is_argmax row p ∧ m !! i = Some (bool_decide (p = t))) ∧
    (length logits = 1%nat → ∃ b, m = [b]) ∧
    Accuracy.value acc = Ok [(Accuracy._name self, m)].
Proof.
  intros Hrows Hlen.
  assert (∃ predict, np_argmax_axis1 logits = Ok predict) as [predict Hpredict].
  { apply rmapM_Ok. eapply Forall_impl; [exact Hrows|].
    intros row Hrow. destruct (np_argmax_spec row Hrow) as (p & Hp & _). by exists p. }
  pose proof (rmapM_length _ _ _ Hpredict) as Hplen.
  set (m := zip_with (λ p t, bool_decide (p = t)) predict target).
  assert (length m = length logits) as Hmlen.
  { unfold m. rewrite length_zip_with. lia. }
  exists m, {| Accuracy._name := Accuracy._name self;
               Accuracy._matches := Accuracy._matches self ++ [m] |}.
  repeat split.
  - unfold Accuracy.update. simpl. rewrite Hpredict. simpl.
    rewrite np_equal_same_length by lia. done.
  - simpl. rewrite length_app. simpl. lia.
  - done.
  - intros i row t Hrow Ht.
    destruct (rmapM_lookup _ _ _ _ _ Hpredict Hrow) as (p & Hp & Hpi).
    exists p. split.
    + assert (row ≠ []) as Hne.
      { eapply (proj1 (Forall_lookup _ _) Hrows); eauto. }
      destruct (np_argmax_spec row Hne) as (p' & Hp' & Harg). congruence.
    + unfold m. rewrite lookup_zip_with, Hpi. simpl. by rewrite Ht.
  - intros Hone. destruct m as [|b [|b' m']]; simpl in *; try lia. by exists b.
  - unfold Accuracy.value. simpl. by rewrite py_getitem_last.
Qed.

Lemma update_appends_match_witness :
  ∃ m acc,
    Accuracy.update Accuracy.init [[[1; 3; 2]]%Q] [1%nat] = Ok acc ∧
    Accuracy._name acc = "accuracy" ∧
    Accuracy._matches acc = [] ++ [m] ∧
    length (Accuracy._matches acc) = 1%nat ∧
    length m = 1%nat ∧
    (∀ i row t, [[1; 3; 2]]%Q !! i = Some row → [1%nat] !! i = Some t →
       ∃ p, is_argmax row p ∧ m !! i = Some (bool_decide (p = t))) ∧
    (1%nat = 1%nat → ∃ b, m = [b]) ∧
    Accuracy.value acc = Ok [("accuracy", m)].
Proof.
  apply (update_appends_match Accuracy.init [[1; 3; 2]]%Q [] [1%nat]).
  - repeat constructor; discriminate.
  - reflexivity.
Defined.

(** ** The data loader *)

Import ClassificationDataLoader.

(** C8: the dataset and the class catalog are built from the global
    [data_dir], whatever path is passed as [data_source]: two loaders
    built with different [data_source] arguments fail alike, or have the
    same sample count, sample paths and class catalog. *)
Theorem init_ignores_data_source (w : World) (source1 source2 : Path) :
  match init w source1, init w source2 with
  | Ok dl1, Ok dl2 =>
      len dl1 = len dl2 ∧
      dataset dl1 = dataset dl2 ∧
      class_names dl1 = class_names dl2 ∧
      dataset dl1 = filter (λ p, has_image_suffix p) (glob_all w) ∧
      data_source dl1 = source1 ∧ data_source dl2 = source2
  | Raise e1, Raise e2 => e1 = e2
  | _, _ => False
  end.
Proof.
  unfold init. destruct (iterdir_data_dir w) as [items|e]; simpl; [|done].
  by repeat split.
Qed.

Lemma py_index_not_IndexError `{EqDecision A} (l : list A) (x : A) :
  py_index l x ≠ Raise IndexError.
Proof.
  induction l as [|y l IH]; simpl; [done|].
  destruct (decide (y = x)); [done|].
  destruct (py_index l x) as [i|e]; simpl; [done|]. congruence.
Qed.


Lemma py_getitem_nonneg {A} (l : list A) (i : Z) :
  (0 ≤ i < Z.of_nat (length l))%Z →
  ∃ x, l !! Z.to_nat i = Some x ∧ py_getitem l i = Ok x.
Proof.
  intros Hi. assert (Z.to_nat i < length l)%nat as Hlt by lia.
  apply lookup_lt_is_Some_2 in Hlt as [x Hx].
  exists x. split; [done|]. unfold py_getitem.
  rewrite (proj2 (Z.ltb_ge i 0)) by lia. simpl.
  rewrite (proj2 (Z.ltb_ge i 0)) by lia. by rewrite Hx.
Qed.

Lemma py_getitem_negative {A} (l : list A) (i : Z) :
  (- Z.of_nat (length l) ≤ i < 0)%Z →
  py_getitem l i = py_getitem l (Z.of_nat (length l) + i).
Proof.
  intros Hi. unfold py_getitem.
  rewrite (proj2 (Z.ltb_lt i 0)) by lia. simpl.
  rewrite !(proj2 (Z.ltb_ge (Z.of_nat (length l) + i) 0)) by lia. done.
Qed.

Lemma getitem_unfold `{Cv2} (dl : t) (index : Z) (filepath : Path) :
  (index < len dl)%Z →
  py_getitem (dataset dl) index = Ok filepath →
  __getitem__ dl index =
    (class_index ← py_index (class_names dl) (path_name (path_parent filepath));
     image ← _read_image dl filepath;
     Ok ((index, class_index), image)).
Proof.
  intros Hlt Hitem. unfold __getitem__.
  rewrite (proj2 (Z.leb_gt (len dl) index)) by lia. by rewrite Hitem.
Qed.

Lemma getitem_not_IndexError `{Cv2} (dl : t) (index : Z) (filepath : Path) :
  (index < len dl)%Z →
  py_getitem (dataset dl) index = Ok filepath →
  __getitem__ dl index ≠ Raise IndexError.
Proof.
  intros Hlt Hitem. rewrite (getitem_unfold _ _ _ Hlt Hitem).
  pose proof (py_index_not_IndexError (class_names dl) (path_name (path_parent filepath))).
  destruct (py_index _ _) as [class_index|e]; simpl; [|congruence].
  unfold _read_image. by destruct (imread _).
Qed.




(** C10, the claim as stated fails: with one sample, index [-1] returns
    the annotation [(-1, 0)], which is not the annotation [(0, 0)] that
    position [1 + -1] has. *)
Lemma getitem_negative_keeps_index :
  __getitem__ (H := sample_cv2) daisy_loader (-1) = Ok ((-1, 0%nat), [[(30, 20, 10)]]%Q)%Z ∧
  __getitem__ (H := sample_cv2) daisy_loader (len daisy_loader + -1)
    = Ok ((0, 0%nat), [[(30, 20, 10)]]%Q)%Z ∧
  __getitem__ (H := sample_cv2) daisy_loader (-1)
    ≠ __getitem__ (H := sample_cv2) daisy_loader (len daisy_loader + -1).
Proof. by vm_compute. Qed.

(** C10, amended: only [index >= len] is guarded.  For a negative index
    in [-N, -1] the call does not raise [IndexError]; it behaves as the
    call at position [N + index] does, with the same class label and
    image, except that the annotation carries the negative index itself. *)
Theorem getitem_negative_index `{Cv2} (dl : t) (index : Z) :
  (- len dl ≤ index < 0)%Z →
  __getitem__ dl index ≠ Raise IndexError ∧
  __getitem__ dl index =
    (r ← __getitem__ dl (len dl + index); Ok ((index, r.1.2), r.2)).
Proof.
  intros Hneg.
  destruct (py_getitem_nonneg (dataset dl) (len dl + index)) as (filepath & Hlook & Hitem);
    [unfold len in *; lia|].
  assert (py_getitem (dataset dl) index = Ok filepath) as Hitem'.
  { rewrite py_getitem_negative by (unfold len in *; lia). exact Hitem. }
  split; [eapply getitem_not_IndexError; [lia|done]|].
  rewrite (getitem_unfold dl index filepath); [|lia|done].
  rewrite (getitem_unfold dl (len dl + index) filepath); [|lia|done].
  destruct (py_index _ _) as [class_index|e]; simpl; [|done].
  by destruct (_read_image dl filepath).
Qed.

Lemma getitem_negative_index_witness :
  __getitem__ (H := sample_cv2) daisy_loader (-1) ≠ Raise IndexError ∧
  __getitem__ (H := sample_cv2) daisy_loader (-1) =
    (r ← __getitem__ (H := sample_cv2) daisy_loader (len daisy_loader + -1);
     Ok ((-1, r.1.2), r.2))%Z.
Proof.
  apply (getitem_negative_index (H := sample_cv2) daisy_loader (-1)).
  unfold len; simpl; lia.
Defined.

(** *** The order on names *)

Lemma ascii_compare_refl (c : ascii) : Ascii.compare c c = Eq.
Proof. apply N.compare_refl. Qed.

Lemma ascii_compare_lt_trans (a b c : ascii) :
  Ascii.compare a b = Lt → Ascii.compare b c = Lt → Ascii.compare a c = Lt.
Proof.
  unfold Ascii.compare. rewrite !N.compare_lt_iff. apply N.lt_trans.
Qed.

Lemma string_compare_lt_trans (a : string) : ∀ b c,
  String.compare a b = Lt → String.compare b c = Lt → String.compare a c = Lt.
Proof.
  induction a as [|x a IH]; intros [|y b] [|z c]; simpl; try done.
  destruct (Ascii.compare x y) eqn:Hxy; try done.
  - apply Ascii.compare_eq_iff in Hxy as ->.
    destruct (Ascii.compare y z) eqn:Hyz; try done. apply IH.
  - destruct (Ascii.compare y z) eqn:Hyz; try done.
    + apply Ascii.compare_eq_iff in Hyz as <-. by rewrite Hxy.
    + by rewrite (ascii_compare_lt_trans _ _ _ Hxy Hyz).
Qed.

Lemma string_compare_refl (a : string) : String.compare a a = Eq.
Proof. induction a as [|x a IH]; simpl; [done|]. by rewrite ascii_compare_refl. Qed.

Lemma string_le_cases (a b : string) : string_le a b ↔ a = b ∨ string_lt a b.
Proof.
  unfold string_le, string_lt, String.leb, String.ltb.
  destruct (String.compare a b) eqn:Hcmp; simpl.
  - apply String.compare_eq_iff in Hcmp. tauto.
  - tauto.
  - split; [done|]. intros [->|[]]. by rewrite string_compare_refl in Hcmp.
Qed.

Lemma string_lt_compare (a b : string) : string_lt a b ↔ String.compare a b = Lt.
Proof.
  unfold string_lt, String.ltb. destruct (String.compare a b); simpl; naive_solver.
Qed.

#[global] Instance string_lt_trans : Transitive string_lt.
Proof.
  intros a b c. rewrite !string_lt_compare. apply string_compare_lt_trans.
Qed.

#[global] Instance string_le_trans : Transitive string_le.
Proof.
  intros a b c. rewrite !string_le_cases. intros [->|Hab] [->|Hbc]; auto.
  right. by transitivity b.
Qed.

#[global] Instance string_le_total : Total string_le.
Proof.
  intros a b. unfold string_le.
  destruct (String.leb_total a b) as [-> | ->]; [by left | by right].
Qed.

Lemma py_sorted_Permutation (names : list string) : py_sorted names ≡ₚ names.
Proof. apply merge_sort_Permutation. Qed.

Lemma py_sorted_ascending (names : list string) :
  StronglySorted string_le (py_sorted names).
Proof. apply StronglySorted_merge_sort; apply _. Qed.



(** *** Paths *)

Lemma path_name_joinpath (p : Path) (name : string) :
  path_name (joinpath p name) = name.
Proof. unfold path_name, joinpath. simpl. by rewrite last_snoc. Qed.


Lemma has_image_suffix_joinpath (p : Path) (name : string) :
  has_image_suffix (joinpath p name) = is_image_name name.
Proof.
  unfold has_image_suffix, is_image_name, path_suffix. by rewrite path_name_joinpath.
Qed.

(** *** The directory-per-category layout *)


Lemma entry_nested_ind (P : entry → Prop) :
  (∀ name, P (File name)) →
  (∀ name children, Forall P children → P (Dir name children)) →
  ∀ e, P e.
Proof.
  intros Hfile Hdir. fix IH 1. intros [name|name children]; [apply Hfile|].
  apply Hdir. induction children as [|c children IHc]; constructor; [apply IH|exact IHc].
Qed.











Lemma iterdir_category_names (base : Path) (es : list entry) :
  (λ item : Path * entry, path_name item.1)
    <$> filter (λ item, is_dir item.2) (iterdir base es)
  = category_names es.
Proof.
  unfold iterdir, category_names. induction es as [|e es IH]; [done|].
  rewrite fmap_cons. destruct (is_dir e) eqn:Hdir.
  - rewrite !filter_cons_True by (simpl; rewrite ?Hdir; done || exact I).
    rewrite !fmap_cons, IH. simpl. by rewrite path_name_joinpath.
  - rewrite !filter_cons_False by (simpl; rewrite ?Hdir; done || by intros []). done.
Qed.







(** ** The quantization driver *)

Import Driver.

Section driver_calls.
Context {Model : Type} `{Calls Model}.

Lemma store_lookup_new (l : list Model) (a : Model) :
  (l ++ [a]) !! length l = Some a.
Proof. by rewrite lookup_app_r, Nat.sub_diag. Qed.

Lemma store_lookup_old (l : list Model) (a b : Model) :
  ((l ++ [a]) ++ [b]) !! length l = Some a.
Proof.
  rewrite lookup_app_l by (rewrite length_app; simpl; lia). apply store_lookup_new.
Qed.

Lemma store_insert_old (l : list Model) (a b c : Model) :
  <[length l := c]> ((l ++ [a]) ++ [b]) = l ++ [c; b].
Proof.
  rewrite <- app_assoc. simpl.
  rewrite insert_app_r_alt, Nat.sub_diag by lia. done.
Qed.

Lemma store_insert_first (l : list Model) (a b c : Model) :
  <[length l := c]> (l ++ [a; b]) = l ++ [c; b].
Proof. rewrite insert_app_r_alt, Nat.sub_diag by lia. done. Qed.

Lemma store_lookup_first (l : list Model) (a b : Model) :
  (l ++ [a; b]) !! length l = Some a.
Proof. by rewrite lookup_app_r, Nat.sub_diag. Qed.

Lemma store_lookup_second (l : list Model) (a b : Model) :
  (l ++ [a; b]) !! S (length l) = Some b.
Proof.
  rewrite lookup_app_r by lia. by replace (S (length l) - length l)%nat with 1%nat by lia.
Qed.

(** Steps 1 to 8, call by call: the first call that raises ends them. *)
Lemma optimize_calls (w : World) (s0 : state Model) :
  optimize w s0 =
    (loaded ← call_load_model;
     copy ← call_deepcopy loaded;
     data_loader ← ClassificationDataLoader.init w (data_dir w);
     quantized ← call_pipeline_run data_loader Accuracy.init loaded;
     compressed ← call_compress_model_weights quantized;
     saved ← call_save_model compressed save_path;
     xml ← reported_path saved;
     Ok ((S (length (store s0)), length (store s0)),
         {| store := store s0 ++ [compressed; copy];
            loads := S (loads s0);
            stdout := stdout s0 ++ [Stored_in (py_Path xml)] |})).
Proof.
  unfold optimize, do_load_model, deepcopy, pipeline_run, compress_model_weights.
  unfold mbind, M_bind, mthen, mret, M_ret, mreturn, count_load, alloc, deref, mutate,
    print, lift, result_bind, rbind, reported_path. simpl.
  destruct call_load_model as [loaded|e]; [|done]. simpl.
  rewrite store_lookup_new. simpl.
  destruct (call_deepcopy loaded) as [copy|e]; [|done]. simpl.
  destruct (ClassificationDataLoader.init w (data_dir w)) as [data_loader|e]; [|done]. simpl.
  rewrite store_lookup_old. simpl.
  destruct (call_pipeline_run data_loader Accuracy.init loaded) as [quantized|e]; [|done].
  simpl. rewrite store_lookup_old, store_insert_old. simpl.
  rewrite store_lookup_first. simpl.
  destruct (call_compress_model_weights quantized) as [compressed|e]; [|done]. simpl.
  rewrite store_lookup_first, store_insert_first. simpl.
  rewrite store_lookup_first. simpl. fold save_path.
  destruct (call_save_model compressed save_path) as [saved|e]; [|done]. simpl.
  destruct (py_getitem saved 0) as [first|e]; simpl; [|done].
  destruct (dict_getitem first "model") as [xml|e]; simpl; [|done].
  by rewrite length_app, Nat.add_1_r.
Qed.

(** Step 9, for two live objects whose evaluation returns. *)
Lemma report_calls (original compressed : ref) (s : state Model)
    (m_o m_q : Model) (results_o results_q : option (dict Q)) :
  store s !! original = Some m_o →
  store s !! compressed = Some m_q →
  call_pipeline_evaluate m_o = Ok results_o →
  call_pipeline_evaluate m_q = Ok results_q →
  report original compressed s =
    Ok (tt, {| store := store s; loads := loads s;
               stdout := stdout s ++ printed Accuracy_original results_o
                                  ++ printed Accuracy_quantized results_q |}).
Proof.
  intros Ho Hq Heval_o Heval_q. unfold report, pipeline_evaluate.
  unfold mbind, M_bind, mthen, mret, M_ret, mreturn, deref, print, lift.
  rewrite Ho. simpl. rewrite Heval_o.
  destruct results_o as [[|[k v] d]|]; simpl; rewrite Hq; simpl; rewrite Heval_q;
    destruct results_q as [[|[k' v'] d']|]; simpl;
    rewrite ?app_nil_r, <- ?app_assoc; try done; by destruct s.
Qed.

End driver_calls.

Section driver_facts.
Context {Model : Type} `{Toolkit Model}.

Lemma optimize_result (w : World) (s0 : state Model) (xml : Path) :
  is_Some (data_dir_entries w) →
  reported_path (save_model (compress_weights (run_algorithms load_model)) save_path)
    = Ok xml →
  optimize w s0 =
    Ok ((S (length (store s0)), length (store s0)),
        {| store := store s0 ++ [compress_weights (run_algorithms load_model); load_model];
           loads := S (loads s0);
           stdout := stdout s0 ++ [Stored_in (py_Path xml)] |}).
Proof.
  intros [es Hes] Hsaved. rewrite optimize_calls. simpl.
  unfold ClassificationDataLoader.init, iterdir_data_dir. rewrite Hes. simpl.
  by rewrite Hsaved.
Qed.

Lemma report_result (original compressed : ref) (s : state Model) (m_o m_q : Model) :
  store s !! original = Some m_o →
  store s !! compressed = Some m_q →
  report original compressed s =
    Ok (tt, {| store := store s; loads := loads s;
               stdout := stdout s ++ printed Accuracy_original (evaluate m_o)
                                  ++ printed Accuracy_quantized (evaluate m_q) |}).
Proof. intros Ho Hq. by apply (report_calls _ _ _ m_o m_q). Qed.

End driver_facts.

(** C5, the claim as stated fails: the driver calls [load_model] once,
    not twice. *)
Lemma optimize_loads_once :
  ∃ refs s,
    optimize (H := sample_toolkit) flowers_world initial = Ok (refs, s) ∧
    loads s = 1%nat ∧ loads s ≠ 2%nat.
Proof. eexists _, _. split; [by vm_compute|]. split; [done|]. simpl. lia. Qed.

(** C5, amended: the driver loads the model artifact once and takes a
    deep copy of it; the pipeline and the weight compression work on the
    loaded object, the copy is retained as the baseline.  Whatever the
    pipeline does to the object it is given, the retained object still
    holds the loaded artifact afterwards, so evaluating it gives what the
    loaded artifact gives. *)
Theorem optimize_keeps_baseline {Model : Type} `{Toolkit Model}
    (w : World) (s0 : state Model) (xml : Path) :
  is_Some (data_dir_entries w) →
  reported_path (save_model (compress_weights (run_algorithms load_model)) save_path)
    = Ok xml →
  ∃ original compressed s,
    optimize w s0 = Ok ((original, compressed), s) ∧
    loads s = S (loads s0) ∧
    original ≠ compressed ∧
    store s !! original = Some load_model ∧
    store s !! compressed = Some (compress_weights (run_algorithms load_model)) ∧
    pipeline_evaluate original s = Ok (evaluate load_model, s).
Proof.
  intros Hdir Hsaved. eexists _, _, _.
  split; [by apply optimize_result|]. simpl.
  assert ((store s0 ++ [compress_weights (run_algorithms load_model); load_model])
            !! S (length (store s0)) = Some load_model) as Hbase
    by apply store_lookup_second.
  repeat split.
  - lia.
  - exact Hbase.
  - apply store_lookup_first.
  - unfold pipeline_evaluate, mbind, M_bind, mthen, deref, ref. cbn [store].
    by rewrite Hbase.
Qed.

Lemma optimize_keeps_baseline_witness :
  ∃ original compressed s,
    optimize (H := sample_toolkit) flowers_world initial = Ok ((original, compressed), s) ∧
    loads s = 1%nat ∧
    original ≠ compressed ∧
    store s !! original = Some 4%nat ∧
    store s !! compressed = Some 5%nat ∧
    pipeline_evaluate (H := sample_toolkit) original s = Ok (Some [("accuracy", 3 # 4)], s).
Proof.
  apply (optimize_keeps_baseline (H := sample_toolkit) flowers_world initial
           (joinpath save_path "flower.xml")).
  - by eexists.
  - reflexivity.
Defined.

(** C7: in step 9, a metric result that is absent or empty is not an
    error: the step completes, prints nothing for that model, and the
    line of the other model is printed as usual. *)
Theorem report_skips_missing_results {Model : Type} `{Toolkit Model}
    (original compressed : ref) (s : state Model) (m_o m_q : Model) :
  store s !! original = Some m_o →
  store s !! compressed = Some m_q →
  ∃ out,
    report original compressed s =
      Ok (tt, {| store := store s; loads := loads s; stdout := stdout s ++ out |}) ∧
    out = printed Accuracy_original (evaluate m_o)
          ++ printed Accuracy_quantized (evaluate m_q) ∧
    (evaluate m_o = None ∨ evaluate m_o = Some [] →
       out = printed Accuracy_quantized (evaluate m_q)) ∧
    (evaluate m_q = None ∨ evaluate m_q = Some [] →
       out = printed Accuracy_original (evaluate m_o)) ∧
    ((evaluate m_o = None ∨ evaluate m_o = Some []) ∧
     (evaluate m_q = None ∨ evaluate m_q = Some []) → out = []).
Proof.
  intros Ho Hq. eexists. split.
  - by rewrite (report_result _ _ _ _ _ Ho Hq).
  - split; [done|]. split; [|split].
    + by intros [-> | ->].
    + intros [-> | ->]; simpl; by rewrite app_nil_r.
    + by intros [[-> | ->] [-> | ->]].
Qed.

Lemma report_skips_missing_results_witness :
  ∃ out,
    report (H := sample_toolkit) 1%nat 0%nat
      {| store := [5%nat; 4%nat]; loads := 1; stdout := [] |} =
      Ok (tt, {| store := [5%nat; 4%nat]; loads := 1; stdout := [] ++ out |}) ∧
    out = [Accuracy_original (3 # 4)] ++ [] ∧
    (Some [("accuracy", 3 # 4)] = None ∨ Some [("accuracy", 3 # 4)] = Some [] →
       out = []) ∧
    (@None (dict Q) = None ∨ @None (dict Q) = Some [] →
       out = [Accuracy_original (3 # 4)]) ∧
    ((Some [("accuracy", 3 # 4)] = None ∨ Some [("accuracy", 3 # 4)] = Some []) ∧
     (@None (dict Q) = None ∨ @None (dict Q) = Some []) → out = []).
Proof.
  apply (report_skips_missing_results (H := sample_toolkit) 1%nat 0%nat
           {| store := [5%nat; 4%nat]; loads := 1; stdout := [] |} 4%nat 5%nat).
  - reflexivity.
  - reflexivity.
Defined.

(** * Further properties *)

(** ** The accuracy metric: malformed calls, batches, passes *)

Lemma np_argmax_axis1_empty_row (logits : list (list Q)) :
  [] ∈ logits → np_argmax_axis1 logits = Raise ValueError.
Proof.
  unfold np_argmax_axis1. induction logits as [|row logits IH]; intros Hin.
  - by apply elem_of_nil in Hin.
  - destruct row as [|x xs]; [done|].
    apply elem_of_cons in Hin as [Hin|Hin]; [done|].
    simpl. by rewrite (IH Hin).
Qed.

Lemma np_argmax_axis1_Ok (logits : list (list Q)) :
  Forall (λ row, row ≠ []) logits → ∃ predict, np_argmax_axis1 logits = Ok predict.
Proof.
  intros Hrows. apply rmapM_Ok. eapply Forall_impl; [exact Hrows|].
  intros row Hrow. destruct (np_argmax_spec row Hrow) as (p & Hp & _). by exists p.
Qed.

(** X1: [update] records nothing for a malformed output: an empty list
    of output tensors raises [IndexError], and a first tensor with an
    empty row raises [ValueError]. *)
Theorem update_rejects_malformed_output (self : Accuracy.t)
    (logits : list (list Q)) (rest : list (list (list Q))) (target : list nat) :
  Accuracy.update self [] target = Raise IndexError ∧
  ([] ∈ logits → Accuracy.update self (logits :: rest) target = Raise ValueError).
Proof.
  split; [done|]. intros Hin. unfold Accuracy.update. simpl.
  by rewrite (np_argmax_axis1_empty_row _ Hin).
Qed.

Lemma update_rejects_malformed_output_witness :
  Accuracy.update Accuracy.init [[[1; 2]; []]%Q] [1%nat; 0%nat] = Raise ValueError.
Proof.
  apply (update_rejects_malformed_output Accuracy.init [[1; 2]; []]%Q [] [1%nat; 0%nat]).
  apply list_elem_of_further, list_elem_of_here.
Defined.

Lemma np_equal_single_target (predict : list nat) (t : nat) :
  np_equal predict [t] = Ok ((λ p, bool_decide (p = t)) <$> predict).
Proof.
  unfold np_equal. destruct (decide (length predict = length [t])) as [Hlen|Hlen].
  - by destruct predict as [|p [|p' predict]].
  - by destruct predict as [|p [|p' predict]].
Qed.

(** X2: a single target label is compared with every row of the batch:
    the recorded entry has one flag per row, telling whether the arg-max
    of that row is the label. *)
Theorem update_broadcasts_single_target (self : Accuracy.t)
    (logits : list (list Q)) (rest : list (list (list Q))) (t : nat) :
  Forall (λ row, row ≠ []) logits →
  ∃ m,
    Accuracy.update self (logits :: rest) [t] =
      Ok {| Accuracy._name := Accuracy._name self;
            Accuracy._matches := Accuracy._matches self ++ [m] |} ∧
    length m = length logits ∧
    ∀ i row, logits !! i = Some row →
      ∃ p, is_argmax row p ∧ m !! i = Some (bool_decide (p = t)).
Proof.
  intros Hrows. destruct (np_argmax_axis1_Ok _ Hrows) as [predict Hpredict].
  exists ((λ p, bool_decide (p = t)) <$> predict). split; [|split].
  - unfold Accuracy.update. simpl. rewrite Hpredict. simpl.
    by rewrite np_equal_single_target.
  - rewrite length_fmap. by eapply rmapM_length.
  - intros i row Hrow.
    destruct (rmapM_lookup _ _ _ _ _ Hpredict Hrow) as (p & Hp & Hpi).
    exists p. split.
    + assert (row ≠ []) as Hne by (eapply (proj1 (Forall_lookup _ _) Hrows); eauto).
      destruct (np_argmax_spec row Hne) as (p' & Hp' & Harg). congruence.
    + by rewrite list_lookup_fmap, Hpi.
Qed.

Lemma update_broadcasts_single_target_witness :
  ∃ m,
    Accuracy.update Accuracy.init [[[1; 3]; [5; 0]; [2; 9]]%Q] [1%nat] =
      Ok {| Accuracy._name := "accuracy"; Accuracy._matches := [] ++ [m] |} ∧
    length m = 3%nat ∧
    ∀ i row, [[1; 3]; [5; 0]; [2; 9]]%Q !! i = Some row →
      ∃ p, is_argmax row p ∧ m !! i = Some (bool_decide (p = 1%nat)).
Proof.
  apply (update_broadcasts_single_target Accuracy.init [[1; 3]; [5; 0]; [2; 9]]%Q [] 1%nat).
  repeat constructor; discriminate.
Defined.

Lemma count_true_le (bs : list bool) : (count_true bs ≤ length bs)%nat.
Proof. unfold count_true. apply length_filter. Qed.

Lemma concat_length_uniform {A} (rows : list (list A)) (B : nat) :
  Forall (λ r, length r = B) rows → length (concat rows) = (length rows * B)%nat.
Proof.
  induction 1 as [|r rows Hr _ IH]; [done|]. simpl. rewrite length_app, IH, Hr. lia.
Qed.

(** X3: with batches of [B] samples the average is the number of true
    flags over all recorded entries divided by the number of entries,
    that is of [update] calls, not of samples: it lies between 0 and [B]. *)
Theorem avg_value_of_batches (self : Accuracy.t) (m : list bool)
    (ms : list (list bool)) (B : nat) :
  Accuracy._matches self = m :: ms →
  Forall (λ r, length r = B) (m :: ms) →
  ∃ q,
    Accuracy.avg_value self = Ok [(Accuracy._name self, q)] ∧
    (q == inject_Z (Z.of_nat (count_true (concat (m :: ms))))
          / inject_Z (Z.of_nat (length (m :: ms))))%Q ∧
    (0 <= q)%Q ∧ (q <= inject_Z (Z.of_nat B))%Q.
Proof.
  intros Hmatches Hsize. pose proof Hsize as Hsize'.
  apply Forall_cons in Hsize' as [Hm Hms].
  eexists. split.
  - apply avg_value_stacked; [done|].
    eapply Forall_impl; [exact Hms|]. simpl. intros r Hr. congruence.
  - split; [by apply Qmake_of_nat|].
    pose proof (count_true_le (concat (m :: ms))) as Hle.
    rewrite (concat_length_uniform _ B Hsize) in Hle.
    simpl length in Hle.
    unfold Qle. simpl Qnum. simpl Qden.
    assert (Z.pos (Pos.of_nat (S (length ms))) = Z.of_nat (S (length ms))) as ->.
    { rewrite <- (Nat2Pos.id (S (length ms))) at 2 by done. by rewrite positive_nat_Z. }
    change (concat (m :: ms)) with (m ++ concat ms) in Hle.
    split; nia.
Qed.

Lemma avg_value_of_batches_witness :
  ∃ q,
    Accuracy.avg_value
      {| Accuracy._name := "accuracy";
         Accuracy._matches := [[true; true]; [true; false]] |}
      = Ok [("accuracy", q)] ∧
    (q == inject_Z 3 / inject_Z 2)%Q ∧ (0 <= q)%Q ∧ (q <= inject_Z 2)%Q.
Proof.
  apply (avg_value_of_batches
           {| Accuracy._name := "accuracy";
              Accuracy._matches := [[true; true]; [true; false]] |}
           [true; true] [[true; false]] 2%nat).
  - reflexivity.
  - repeat constructor.
Defined.

Lemma update_Ok_inv (self acc : Accuracy.t) output target :
  Accuracy.update self output target = Ok acc →
  ∃ logits predict m,
    py_getitem output 0 = Ok logits ∧
    np_argmax_axis1 logits = Ok predict ∧
    np_equal predict target = Ok m ∧
    acc = {| Accuracy._name := Accuracy._name self;
             Accuracy._matches := Accuracy._matches self ++ [m] |}.
Proof.
  unfold Accuracy.update.
  intros (logits & Hlogits & (predict & Hpredict & (m & Hm & [= <-])%rbind_Ok)%rbind_Ok)%rbind_Ok.
  by exists logits, predict, m.
Qed.

(** X4: a pass of [update] calls that completes leaves the name alone,
    keeps every entry recorded before it, and adds exactly one entry per
    call, in call order: the entry added at position [i] is the
    comparison of the row-wise arg-max of the first output tensor of call
    [i] with the targets of call [i]. *)
Theorem updates_extend_history (self acc : Accuracy.t)
    (calls : list (list (list (list Q)) * list nat)) :
  Accuracy.updates self calls = Ok acc →
  Accuracy._name acc = Accuracy._name self ∧
  ∃ ms, Accuracy._matches acc = Accuracy._matches self ++ ms ∧
        length ms = length calls ∧
        ∀ i c m, calls !! i = Some c → ms !! i = Some m →
          ∃ logits predict,
            py_getitem c.1 0 = Ok logits ∧
            np_argmax_axis1 logits = Ok predict ∧
            np_equal predict c.2 = Ok m.
Proof.
  revert self. induction calls as [|c calls IH]; intros self; unfold Accuracy.updates; simpl.
  - intros [= <-]. split; [done|]. exists []. rewrite app_nil_r. by repeat split.
  - intros (mid & Hmid & Hrest)%rbind_Ok.
    apply update_Ok_inv in Hmid as (logits & predict & m & Hlogits & Hpredict & Hm & ->).
    apply IH in Hrest as (Hname & ms & Hms & Hlen & Hentries). simpl in *.
    split; [done|]. exists (m :: ms). split; [by rewrite Hms, <- app_assoc|].
    split; [by rewrite <- Hlen|].
    intros [|i] c' m'; simpl.
    + intros [= <-] [= <-]. by exists logits, predict.
    + apply Hentries.
Qed.

Lemma updates_extend_history_witness :
  Accuracy._name
    {| Accuracy._name := "accuracy"; Accuracy._matches := [[true]; [false]; [true; false]] |}
    = "accuracy" ∧
  ∃ ms, [[true]; [false]; [true; false]] = [[true]] ++ ms ∧ length ms = 2%nat ∧
        ∀ i c m,
          [ ([[[1; 0]]], [1%nat]); ([[[1; 0]; [0; 1]]], [0%nat; 0%nat]) ]%Q !! i = Some c →
          ms !! i = Some m →
          ∃ logits predict,
            py_getitem c.1 0 = Ok logits ∧
            np_argmax_axis1 logits = Ok predict ∧
            np_equal predict c.2 = Ok m.
Proof.
  apply (updates_extend_history
           {| Accuracy._name := "accuracy"; Accuracy._matches := [[true]] |}
           {| Accuracy._name := "accuracy";
              Accuracy._matches := [[true]; [false]; [true; false]] |}
           [ ([[[1; 0]]], [1%nat]); ([[[1; 0]; [0; 1]]], [0%nat; 0%nat]) ]%Q).
  reflexivity.
Defined.

(** ** The data loader: indices, results, names *)

Lemma py_getitem_Ok_range {A} (l : list A) (i : Z) (x : A) :
  py_getitem l i = Ok x → (- Z.of_nat (length l) ≤ i < Z.of_nat (length l))%Z.
Proof.
  unfold py_getitem. destruct (Z.ltb_spec i 0) as [Hneg|Hpos].
  - destruct (Z.ltb_spec (Z.of_nat (length l) + i) 0); [done|]. intros _. lia.
  - destruct (Z.ltb_spec i 0); [lia|].
    destruct (l !! Z.to_nat i) eqn:Hlook; [|done].
    apply lookup_lt_Some in Hlook. intros _. lia.
Qed.

Lemma py_index_Ok_inv `{EqDecision A} (l : list A) (x : A) (i : nat) :
  py_index l x = Ok i →
  l !! i = Some x ∧ ∀ j, (j < i)%nat → l !! j ≠ Some x.
Proof.
  revert i. induction l as [|y l IH]; intros i; simpl; [done|].
  destruct (decide (y = x)) as [->|Hne].
  - intros [= <-]. split; [done|]. intros j Hj. lia.
  - intros (i' & Hi' & [= <-])%rbind_Ok. destruct (IH _ Hi') as [Hlook Hfirst].
    split; [done|]. intros [|j] Hj; simpl; [congruence|]. apply Hfirst. lia.
Qed.

(** X6: an index below [-N] is not caught by the guard either; it
    raises [IndexError] when the sample list is indexed. *)
Theorem getitem_below_range `{Cv2} (dl : t) (index : Z) :
  (index < - len dl)%Z → __getitem__ dl index = Raise IndexError.
Proof.
  intros Hlow. unfold __getitem__, len in *.
  rewrite (proj2 (Z.leb_gt _ index)) by lia.
  unfold py_getitem. rewrite (proj2 (Z.ltb_lt index 0)) by lia. simpl.
  by rewrite (proj2 (Z.ltb_lt (Z.of_nat (length (dataset dl)) + index) 0)) by lia.
Qed.

Lemma getitem_below_range_witness :
  __getitem__ (H := sample_cv2) daisy_loader (-2) = Raise IndexError.
Proof.
  apply (getitem_below_range (H := sample_cv2) daisy_loader (-2)).
  unfold len; simpl; lia.
Defined.

(** X7: whatever the loader holds, a call that returns has an index in
    [-N, N), returns that index unchanged in the annotation, and returns
    as class label the first catalog position of the parent directory
    name of the file at that index, with the image read from
    [os.path.join(data_source, file)], its channels reversed, resized to
    180 by 180 and converted. *)
Theorem getitem_Ok_inv `{Cv2} (dl : t) (index : Z) (annotation : Z * nat)
    (image : Image Q) :
  __getitem__ dl index = Ok (annotation, image) →
  annotation.1 = index ∧
  (- len dl ≤ index < len dl)%Z ∧
  ∃ filepath raw,
    py_getitem (dataset dl) index = Ok filepath ∧
    class_names dl !! annotation.2 = Some (path_name (path_parent filepath)) ∧
    (∀ j, (j < annotation.2)%nat →
       class_names dl !! j ≠ Some (path_name (path_parent filepath))) ∧
    imread (os_path_join (data_source dl) filepath) = Some raw ∧
    image = astype_float32 (resize (reorder_channels raw) (180%nat, 180%nat)).
Proof.
  unfold __getitem__. destruct (Z.leb_spec (len dl) index) as [|Hlt]; [done|].
  intros (filepath & Hitem & (label & Hlabel & (img & Himg & [= <- <-])%rbind_Ok)%rbind_Ok)%rbind_Ok.
  split; [done|]. split.
  { apply py_getitem_Ok_range in Hitem. unfold len in *. lia. }
  unfold _read_image in Himg.
  destruct (imread (os_path_join (data_source dl) filepath)) as [raw|] eqn:Hraw; [|done].
  injection Himg as <-. exists filepath, raw.
  destruct (py_index_Ok_inv _ _ _ Hlabel) as [Hpos Hfirst].
  by repeat split.
Qed.

Lemma getitem_Ok_inv_witness :
  ((-1)%Z, 0%nat).1 = (-1)%Z ∧
  (- len daisy_loader ≤ -1 < len daisy_loader)%Z ∧
  ∃ filepath raw,
    py_getitem (dataset daisy_loader) (-1) = Ok filepath ∧
    class_names daisy_loader !! ((-1)%Z, 0%nat).2
      = Some (path_name (path_parent filepath)) ∧
    (∀ j, (j < ((-1)%Z, 0%nat).2)%nat →
       class_names daisy_loader !! j ≠ Some (path_name (path_parent filepath))) ∧
    imread (Cv2 := sample_cv2) (os_path_join (data_source daisy_loader) filepath)
      = Some raw ∧
    [[(30, 20, 10)]]%Q
      = astype_float32 (resize (Cv2 := sample_cv2) (reorder_channels raw) (180%nat, 180%nat)).
Proof.
  apply (getitem_Ok_inv (H := sample_cv2) daisy_loader (-1) ((-1)%Z, 0%nat)
           [[(30, 20, 10)]]%Q).
  reflexivity.
Defined.

(** X8: reversing the channels twice gives the image back, and it keeps
    the number of rows and the length of every row. *)
Theorem reorder_channels_involutive {C : Type} (image : Image C) :
  reorder_channels (reorder_channels image) = image ∧
  length (reorder_channels image) = length image ∧
  (length <$> reorder_channels image) = (length <$> image).
Proof.
  unfold reorder_channels. split; [|split].
  - induction image as [|row image IH]; [done|]. simpl. f_equal; [|exact IH].
    clear IH. induction row as [|[[c0 c1] c2] row IH]; [done|]. simpl. by f_equal.
  - by rewrite length_map.
  - induction image as [|row image IH]; [done|]. simpl. rewrite length_map.
    f_equal. exact IH.
Qed.

(** *** Which names count as images *)

Lemma rfind_app_last (c : ascii) (stem tail : string) :
  rfind c tail = None →
  rfind c (stem +:+ String c tail) = Some (String.length stem).
Proof.
  intros Htail. induction stem as [|a stem IH]; simpl.
  - by rewrite Htail, Ascii.eqb_refl.
  - by rewrite IH.
Qed.

Lemma string_length_app (s1 s2 : string) :
  String.length (s1 +:+ s2) = (String.length s1 + String.length s2)%nat.
Proof. induction s1 as [|a s1 IH]; simpl; [done|]. by rewrite IH. Qed.

Lemma substring_all (s : string) : String.substring 0 (String.length s) s = s.
Proof. induction s as [|a s IH]; simpl; [done|]. by rewrite IH. Qed.

Lemma substring_app_r (s1 s2 : string) :
  String.substring (String.length s1) (String.length s2) (s1 +:+ s2) = s2.
Proof. induction s1 as [|a s1 IH]; simpl; [apply substring_all|exact IH]. Qed.

Lemma substring_split (s : string) : ∀ i,
  (i ≤ String.length s)%nat →
  s = String.substring 0 i s +:+ String.substring i (String.length s - i) s.
Proof.
  induction s as [|a s IH]; intros [|i] Hi; simpl in *; try lia.
  - done.
  - by rewrite substring_all.
  - change (String a s = String a (String.substring 0 i s +:+
                                   String.substring i (String.length s - i) s)).
    f_equal. apply IH. lia.
Qed.

Lemma rfind_lt (c : ascii) (s : string) (i : nat) :
  rfind c s = Some i → (i < String.length s)%nat.
Proof.
  revert i. induction s as [|a s IH]; intros i; simpl; [done|].
  destruct (rfind c s) as [j|].
  - intros [= <-]. specialize (IH j eq_refl). lia.
  - destruct (Ascii.eqb a c); [|done]. intros [= <-]. lia.
Qed.

Lemma name_suffix_of_stem (stem ext : string) :
  stem ≠ "" → ext ≠ "" → rfind "." ext = None →
  name_suffix (stem +:+ String "." ext) = String "." ext.
Proof.
  intros Hstem Hext Hnodot. unfold name_suffix.
  rewrite (rfind_app_last _ _ _ Hnodot), string_length_app. simpl String.length.
  assert (0 < String.length stem)%nat as Hpos by (destruct stem; [done|simpl; lia]).
  assert (0 < String.length ext)%nat as Hpos' by (destruct ext; [done|simpl; lia]).
  rewrite (proj2 (Nat.ltb_lt 0 _) Hpos).
  rewrite (proj2 (Nat.ltb_lt (String.length stem) _)) by lia. simpl andb.
  replace (String.length stem + S (String.length ext) - String.length stem)%nat
    with (String.length (String "." ext)) by (simpl; lia).
  apply substring_app_r.
Qed.

Lemma name_suffix_stem (name : string) :
  name_suffix name ≠ "" →
  ∃ stem, stem ≠ "" ∧ name = stem +:+ name_suffix name.
Proof.
  unfold name_suffix. destruct (rfind "." name) as [i|] eqn:Hfind; [|done].
  destruct (0 <? i)%nat eqn:Hpos; [|done].
  destruct (i <? String.length name - 1)%nat eqn:Hlast; [|done]. simpl. intros _.
  apply Nat.ltb_lt in Hpos. apply rfind_lt in Hfind.
  exists (String.substring 0 i name). split; [|apply substring_split; lia].
  destruct name as [|a name]; [simpl in Hfind; lia|]. by destruct i; [lia|].
Qed.

(** X9: a name counts as an image exactly when it is a non-empty stem
    followed by [.png] or [.jpg], in lower case: a bare [.jpg], an upper
    case extension or [.jpeg] do not count. *)
Theorem is_image_name_iff (name : string) :
  is_image_name name = true ↔
  ∃ stem, stem ≠ "" ∧ (name = stem +:+ ".png" ∨ name = stem +:+ ".jpg").
Proof.
  unfold is_image_name. rewrite bool_decide_eq_true. split.
  - intros Hin. destruct (name_suffix_stem name) as (stem & Hstem & Hname).
    { intros Hempty. rewrite Hempty in Hin.
      apply elem_of_cons in Hin as [?|Hin]; [done|].
      apply elem_of_cons in Hin as [?|Hin]; [done|].
      by apply elem_of_nil in Hin. }
    exists stem. split; [done|].
    apply elem_of_cons in Hin as [Hpng|Hin]; [left; congruence|].
    apply elem_of_cons in Hin as [Hjpg|Hin]; [right; congruence|].
    by apply elem_of_nil in Hin.
  - intros (stem & Hstem & [-> | ->]).
    + rewrite (name_suffix_of_stem stem "png") by done. apply list_elem_of_here.
    + rewrite (name_suffix_of_stem stem "jpg") by done.
      apply list_elem_of_further, list_elem_of_here.
Qed.

(** *** What the loader collects *)

Lemma extend_cons (base : Path) (name : string) (names : list string) :
  extend base (name :: names) = extend (joinpath base name) names.
Proof. done. Qed.

Lemma extend_snoc (base : Path) (names : list string) (name : string) :
  extend base (names ++ [name]) = joinpath (extend base names) name.
Proof. unfold extend. by rewrite foldl_app. Qed.

Lemma extend_parts (names : list string) : ∀ base,
  extend base names = {| absolute := absolute base; parts := parts base ++ names |}.
Proof.
  induction names as [|name names IH]; intros base.
  - simpl. rewrite app_nil_r. by destruct base.
  - rewrite extend_cons, IH. simpl. by rewrite <- app_assoc.
Qed.

Lemma below_nonempty (es : list entry) (names : list string) :
  below es names → names ≠ [].
Proof. by destruct 1. Qed.

Lemma rglob_elem_of_aux (es : list entry) :
  Forall rglob_below_spec es →
  ∀ base p, p ∈ rglob base es ↔ ∃ names, below es names ∧ p = extend base names.
Proof.
  intros Hspec base p. unfold rglob. rewrite elem_of_app. split.
  - intros [Hhere|Hdeep].
    + apply list_elem_of_fmap in Hhere as (e & -> & He).
      exists [entry_name e]. split; [by constructor|done].
    + apply list_elem_of_In, in_flat_map in Hdeep as (e & He%list_elem_of_In & Hp%list_elem_of_In).
      rewrite Forall_forall in Hspec.
      apply (Hspec e He) in Hp as (name & children & names & -> & Hbelow & ->).
      exists (name :: names). split; [by econstructor|done].
  - intros (names & Hbelow & ->). destruct Hbelow as [es e He|es name children names He Hbelow].
    + left. by apply (list_elem_of_fmap_2 (λ e, joinpath base (entry_name e))).
    + right. apply list_elem_of_In, in_flat_map. exists (Dir name children).
      split; [by apply list_elem_of_In|]. apply list_elem_of_In.
      rewrite Forall_forall in Hspec. apply (Hspec _ He). by exists name, children, names.
Qed.

Lemma rglob_below_spec_all (e : entry) : rglob_below_spec e.
Proof.
  induction e as [name|name children IH] using entry_nested_ind; intros base p.
  - simpl. split; [by intros ?%elem_of_nil|by intros (? & ? & ? & ? & _)].
  - change (rglob_below base (Dir name children))
      with (rglob (joinpath base name) children).
    rewrite (rglob_elem_of_aux children IH). split.
    + intros (names & Hbelow & ->). by exists name, children, names.
    + intros (name' & children' & names & [= <- <-] & Hbelow & ->). by exists names.
Qed.

Lemma rglob_elem_of (base : Path) (es : list entry) (p : Path) :
  p ∈ rglob base es ↔ ∃ names, below es names ∧ p = extend base names.
Proof.
  apply rglob_elem_of_aux, Forall_forall. intros e _. apply rglob_below_spec_all.
Qed.

Lemma init_Ok_inv (w : World) (source : Path) (dl : t) :
  init w source = Ok dl →
  ∃ es, data_dir_entries w = Some es ∧
        dl = {| data_source := source;
                dataset := filter (λ p, has_image_suffix p) (rglob (data_dir w) es);
                class_names := py_sorted (category_names es) |}.
Proof.
  unfold init, iterdir_data_dir, glob_all.
  destruct (data_dir_entries w) as [es|]; [|done]. simpl.
  intros [= <-]. exists es. by rewrite iterdir_category_names.
Qed.

Lemma collected_elem_of (base : Path) (es : list entry) (p : Path) :
  p ∈ filter (λ p, has_image_suffix p) (rglob base es) ↔
  ∃ names name,
    below es (names ++ [name]) ∧ is_image_name name = true ∧
    p = extend base (names ++ [name]).
Proof.
  rewrite list_elem_of_filter, rglob_elem_of. split.
  - intros [Himg (names & Hbelow & ->)].
    destruct (exists_last (below_nonempty _ _ Hbelow)) as (names' & name & ->).
    exists names', name. split; [done|]. split; [|done].
    rewrite extend_snoc, has_image_suffix_joinpath in Himg. by destruct (is_image_name name).
  - intros (names & name & Hbelow & Himg & ->). split; [|by eexists].
    by rewrite extend_snoc, has_image_suffix_joinpath, Himg.
Qed.

(** X10: the samples are exactly the entries below [data_dir], at any
    depth and be they files or directories, whose own name is an image
    name; each sample path is [data_dir] followed by the names that lead
    to the entry. *)
Theorem dataset_elem_of (w : World) (source : Path) (dl : t) (p : Path) :
  init w source = Ok dl →
  ∃ es, data_dir_entries w = Some es ∧
    (p ∈ dataset dl ↔
     ∃ names name,
       below es (names ++ [name]) ∧ is_image_name name = true ∧
       p = extend (data_dir w) (names ++ [name])).
Proof.
  intros (es & Hes & ->)%init_Ok_inv. exists es. split; [done|]. simpl.
  apply collected_elem_of.
Qed.

Lemma dataset_elem_of_witness :
  ∃ es, data_dir_entries stray_world = Some es ∧
    (joinpath flowers "stray.jpg" ∈ dataset stray_loader ↔
     ∃ names name,
       below es (names ++ [name]) ∧ is_image_name name = true ∧
       joinpath flowers "stray.jpg" = extend (data_dir stray_world) (names ++ [name])).
Proof.
  apply (dataset_elem_of stray_world flowers stray_loader (joinpath flowers "stray.jpg")).
  reflexivity.
Defined.

(** *** The class catalog *)

#[global] Instance string_le_antisym : AntiSymm (=) string_le.
Proof. intros a b Hab Hba. apply String.leb_antisym; by apply Is_true_true. Qed.

Lemma category_names_elem_of (es : list entry) (name : string) :
  name ∈ category_names es ↔ ∃ children, Dir name children ∈ es.
Proof.
  unfold category_names. rewrite list_elem_of_fmap. split.
  - intros ([n|n children] & -> & [Hdir Hin]%list_elem_of_filter); [done|]. by exists children.
  - intros [children Hin]. exists (Dir name children). split; [done|].
    by apply list_elem_of_filter.
Qed.

(** X11: whatever [data_dir] holds, the class catalog of a loader that
    was built lists the names of the directories found directly under
    [data_dir], each as often as it is listed and no file name, in
    ascending lexicographic order. *)
Theorem class_names_sorted (w : World) (source : Path) (dl : t) :
  init w source = Ok dl →
  ∃ es, data_dir_entries w = Some es ∧
    class_names dl ≡ₚ category_names es ∧
    StronglySorted string_le (class_names dl) ∧
    ∀ name, name ∈ class_names dl ↔ ∃ children, Dir name children ∈ es.
Proof.
  intros (es & Hes & ->)%init_Ok_inv. exists es. simpl.
  split; [done|]. split; [apply py_sorted_Permutation|].
  split; [apply py_sorted_ascending|].
  intros name. rewrite py_sorted_Permutation. apply category_names_elem_of.
Qed.

Lemma class_names_sorted_witness :
  ∃ es, data_dir_entries stray_world = Some es ∧
    class_names stray_loader ≡ₚ category_names es ∧
    StronglySorted string_le (class_names stray_loader) ∧
    ∀ name, name ∈ class_names stray_loader ↔ ∃ children, Dir name children ∈ es.
Proof.
  apply (class_names_sorted stray_world flowers stray_loader). reflexivity.
Defined.

(** X12: the class catalog, and so the label of every category, does
    not depend on the order in which the operating system lists
    [data_dir]: two listings that are permutations of each other give the
    same catalog. *)
Theorem class_names_listing_order (w1 w2 : World) (source1 source2 : Path)
    (es1 es2 : list entry) (dl1 dl2 : t) :
  data_dir_entries w1 = Some es1 →
  data_dir_entries w2 = Some es2 →
  es1 ≡ₚ es2 →
  init w1 source1 = Ok dl1 →
  init w2 source2 = Ok dl2 →
  class_names dl1 = class_names dl2.
Proof.
  intros Hes1 Hes2 Hperm (es1' & Hes1' & ->)%init_Ok_inv (es2' & Hes2' & ->)%init_Ok_inv.
  simpl. assert (es1' = es1) as -> by congruence. assert (es2' = es2) as -> by congruence.
  apply (StronglySorted_unique string_le); try apply py_sorted_ascending.
  rewrite !py_sorted_Permutation. unfold category_names. by rewrite Hperm.
Qed.

Lemma class_names_listing_order_witness :
  class_names
    {| data_source := flowers;
       dataset := [joinpath (joinpath flowers "roses") "r1.jpg";
                   joinpath (joinpath flowers "daisy") "d1.jpg"];
       class_names := ["daisy"; "roses"] |}
  = class_names
    {| data_source := flowers;
       dataset := [joinpath (joinpath flowers "daisy") "d1.jpg";
                   joinpath (joinpath flowers "roses") "r1.jpg"];
       class_names := ["daisy"; "roses"] |}.
Proof.
  apply (class_names_listing_order
           {| data_dir := flowers;
              data_dir_entries := Some [Dir "roses" [File "r1.jpg"]; Dir "daisy" [File "d1.jpg"]] |}
           {| data_dir := flowers;
              data_dir_entries := Some [Dir "daisy" [File "d1.jpg"]; Dir "roses" [File "r1.jpg"]] |}
           flowers flowers
           [Dir "roses" [File "r1.jpg"]; Dir "daisy" [File "d1.jpg"]]
           [Dir "daisy" [File "d1.jpg"]; Dir "roses" [File "r1.jpg"]]).
  - reflexivity.
  - reflexivity.
  - apply perm_swap.
  - reflexivity.
  - reflexivity.
Defined.

(** *** The file that is read *)

Lemma dataset_paths (w : World) (source : Path) (dl : t) (p : Path) :
  init w source = Ok dl →
  p ∈ dataset dl →
  ∃ names, names ≠ [] ∧
    p = {| absolute := absolute (data_dir w); parts := parts (data_dir w) ++ names |}.
Proof.
  intros (es & _ & ->)%init_Ok_inv Hin. simpl in Hin.
  apply collected_elem_of in Hin as (names & name & _ & _ & ->).
  exists (names ++ [name]). split; [by destruct names|]. apply extend_parts.
Qed.

Lemma py_getitem_elem_of {A} (l : list A) (i : Z) (x : A) :
  py_getitem l i = Ok x → x ∈ l.
Proof.
  unfold py_getitem. destruct (_ <? 0)%Z; [done|].
  destruct (l !! _) eqn:Hlook; [|done]. intros [= <-]. by eapply list_elem_of_lookup_2.
Qed.

(** X13: when [data_dir] is an absolute path, as the one the notebook
    gets from [get_file], the sample paths are absolute and
    [os.path.join] drops [data_source]: loaders built with different
    [data_source] arguments return the same result for every index. *)
Theorem getitem_ignores_data_source `{Cv2} (w : World) (source1 source2 : Path)
    (dl1 dl2 : t) (index : Z) :
  absolute (data_dir w) = true →
  init w source1 = Ok dl1 →
  init w source2 = Ok dl2 →
  __getitem__ dl1 index = __getitem__ dl2 index.
Proof.
  intros Habs Hinit1 Hinit2.
  assert (∀ p, p ∈ dataset dl1 → _read_image dl1 p = _read_image dl2 p) as Hread.
  { intros p Hp. destruct (dataset_paths _ _ _ _ Hinit1 Hp) as (names & _ & ->).
    unfold _read_image, os_path_join. simpl. by rewrite Habs. }
  apply init_Ok_inv in Hinit1 as (es1 & Hes1 & Hdl1).
  apply init_Ok_inv in Hinit2 as (es2 & Hes2 & Hdl2).
  assert (es2 = es1) as -> by congruence.
  assert (dataset dl2 = dataset dl1) as Hdataset by by subst.
  assert (class_names dl2 = class_names dl1) as Hclasses by by subst.
  unfold __getitem__, len. rewrite Hdataset, Hclasses.
  destruct (_ <=? index)%Z; [done|].
  destruct (py_getitem (dataset dl1) index) as [filepath|e] eqn:Hitem; simpl; [|done].
  destruct (py_index _ _) as [label|e]; simpl; [|done].
  by rewrite (Hread filepath (py_getitem_elem_of _ _ _ Hitem)).
Qed.

Lemma getitem_ignores_data_source_witness :
  __getitem__ (H := sample_cv2)
    {| data_source := flowers;
       dataset := [joinpath flowers "stray.jpg"; joinpath (joinpath flowers "daisy") "d1.jpg"];
       class_names := ["daisy"] |} 1
  = __getitem__ (H := sample_cv2)
    {| data_source := {| absolute := false; parts := ["elsewhere"] |};
       dataset := [joinpath flowers "stray.jpg"; joinpath (joinpath flowers "daisy") "d1.jpg"];
       class_names := ["daisy"] |} 1.
Proof.
  apply (getitem_ignores_data_source (H := sample_cv2) stray_world flowers
           {| absolute := false; parts := ["elsewhere"] |}).
  - reflexivity.
  - reflexivity.
  - reflexivity.
Defined.

(** X14: when [data_dir] is a relative path, every sample path starts
    with the components of [data_dir], and the file that [_read_image]
    opens is [data_source] followed by that whole sample path: the
    components of [data_dir] come after those of [data_source]. *)
Theorem read_path_of_relative_data_dir (w : World) (source : Path) (dl : t) (p : Path) :
  absolute (data_dir w) = false →
  init w source = Ok dl →
  p ∈ dataset dl →
  ∃ names, names ≠ [] ∧
    p = {| absolute := false; parts := parts (data_dir w) ++ names |} ∧
    os_path_join (data_source dl) p =
      {| absolute := absolute source;
         parts := parts source ++ parts (data_dir w) ++ names |}.
Proof.
  intros Hrel Hinit Hp. destruct (dataset_paths _ _ _ _ Hinit Hp) as (names & Hne & ->).
  exists names. rewrite Hrel. split; [done|]. split; [done|].
  apply init_Ok_inv in Hinit as (es & _ & ->). done.
Qed.

Lemma read_path_of_relative_data_dir_witness :
  ∃ names, names ≠ [] ∧
    {| absolute := false; parts := ["flower_photos"; "daisy"; "d1.jpg"] |}
      = {| absolute := false; parts := ["flower_photos"] ++ names |} ∧
    os_path_join
      (data_source
         {| data_source := {| absolute := false; parts := ["flower_photos"] |};
            dataset := [ {| absolute := false; parts := ["flower_photos"; "daisy"; "d1.jpg"] |} ];
            class_names := ["daisy"] |})
      {| absolute := false; parts := ["flower_photos"; "daisy"; "d1.jpg"] |}
    = {| absolute := false; parts := ["flower_photos"] ++ ["flower_photos"] ++ names |}.
Proof.
  apply (read_path_of_relative_data_dir
           {| data_dir := {| absolute := false; parts := ["flower_photos"] |};
              data_dir_entries := Some [Dir "daisy" [File "d1.jpg"]] |}
           {| absolute := false; parts := ["flower_photos"] |}
           {| data_source := {| absolute := false; parts := ["flower_photos"] |};
              dataset := [ {| absolute := false; parts := ["flower_photos"; "daisy"; "d1.jpg"] |} ];
              class_names := ["daisy"] |}
           {| absolute := false; parts := ["flower_photos"; "daisy"; "d1.jpg"] |}).
  - reflexivity.
  - reflexivity.
  - apply list_elem_of_here.
Defined.

(** ** The quantization driver: failures and the whole run *)

(** X15: steps 1 to 8 fail in the order of the cells: an exception of
    [load_model] ends them first, then one of [copy.deepcopy]; when both
    return and [data_dir] is not an existing directory, they stop with
    the [OSError] of the data loader, before the pipeline is built or run,
    whatever the later toolkit calls would do. *)
Theorem optimize_without_data_dir {Model : Type} `{Calls Model}
    (w : World) (s0 : state Model) :
  (∀ e, call_load_model = Raise e → optimize w s0 = Raise e) ∧
  (∀ loaded e,
     call_load_model = Ok loaded → call_deepcopy loaded = Raise e →
     optimize w s0 = Raise e) ∧
  (∀ loaded copy,
     call_load_model = Ok loaded → call_deepcopy loaded = Ok copy →
     data_dir_entries w = None →
     optimize w s0 = Raise OSError).
Proof.
  rewrite optimize_calls. split; [|split].
  - by intros e ->.
  - intros loaded e -> Hcopy. simpl. by rewrite Hcopy.
  - intros loaded copy -> Hcopy Hnone. simpl. rewrite Hcopy. simpl.
    unfold ClassificationDataLoader.init, iterdir_data_dir. by rewrite Hnone.
Qed.

Lemma optimize_without_data_dir_witness :
  optimize
    (H := {| call_load_model := Ok 4%nat;
             call_deepcopy := λ m, Ok m;
             call_pipeline_run := λ _ _ _, Raise ValueError;
             call_compress_model_weights := λ _, Raise ValueError;
             call_save_model := λ _ _, Raise ValueError;
             call_pipeline_evaluate := λ _, Raise ValueError |})
    {| data_dir := flowers; data_dir_entries := None |} initial = Raise OSError.
Proof.
  apply (optimize_without_data_dir
           (H := {| call_load_model := Ok 4%nat;
                    call_deepcopy := λ m, Ok m;
                    call_pipeline_run := λ _ _ _, Raise ValueError;
                    call_compress_model_weights := λ _, Raise ValueError;
                    call_save_model := λ _ _, Raise ValueError;
                    call_pipeline_evaluate := λ _, Raise ValueError |})
           {| data_dir := flowers; data_dir_entries := None |} initial)
    with (loaded := 4%nat) (copy := 4%nat).
  - reflexivity.
  - reflexivity.
  - reflexivity.
Defined.

Lemma dict_getitem_absent {V} (d : dict V) (key : string) :
  key ∉ d.*1 → dict_getitem d key = Raise KeyError.
Proof.
  induction d as [|[k v] d IH]; [done|]. simpl. intros Hnot.
  apply not_elem_of_cons in Hnot as [Hne Hnot].
  rewrite decide_False by done. by apply IH.
Qed.

(** X16: with [data_dir] in place, step 8 depends on what [save_model]
    answers: an empty list raises [IndexError], and a first dict without
    the key [model] raises [KeyError]; in both cases nothing is printed. *)
Theorem optimize_save_failures {Model : Type} `{Toolkit Model}
    (w : World) (s0 : state Model) :
  is_Some (data_dir_entries w) →
  (save_model (compress_weights (run_algorithms load_model)) save_path = [] →
     optimize w s0 = Raise IndexError) ∧
  (∀ first others,
     save_model (compress_weights (run_algorithms load_model)) save_path
       = first :: others →
     "model" ∉ first.*1 →
     optimize w s0 = Raise KeyError).
Proof.
  intros [es Hes]. rewrite optimize_calls. simpl.
  unfold ClassificationDataLoader.init, iterdir_data_dir, reported_path. rewrite Hes. simpl.
  split.
  - by intros ->.
  - intros first others -> Habsent. simpl.
    change (py_getitem (first :: others) 0) with (Ok (A := dict Path) first). simpl.
    by rewrite dict_getitem_absent.
Qed.

Lemma optimize_save_failures_witness :
  optimize
    (H := {| load_model := 4%nat; run_algorithms := S; compress_weights := λ m, m;
             save_model := λ _ _, [[("weights", flowers)]];
             evaluate := λ _, None |})
    flowers_world initial = Raise KeyError.
Proof.
  apply (optimize_save_failures
           (H := {| load_model := 4%nat; run_algorithms := S; compress_weights := λ m, m;
                    save_model := λ _ _, [[("weights", flowers)]];
                    evaluate := λ _, None |})
           flowers_world initial) with (first := [("weights", flowers)]) (others := []).
  - by eexists.
  - reflexivity.
  - simpl. intros Hin. apply elem_of_cons in Hin as [Hin|Hin]; [discriminate|].
    by apply elem_of_nil in Hin.
Defined.

(** X17: a whole run in which every toolkit call returns prints, in this
    order, the saved path as [Path] gives it, the accuracy line of the
    retained copy and the accuracy line of the quantized and compressed
    object, each accuracy line only for a non-empty result; it has called
    [load_model] once and leaves the quantized object and the copy in
    the store. *)
Theorem main_output {Model : Type} `{Calls Model}
    (w : World) (s0 : state Model) (loaded copy quantized compressed : Model)
    (data_loader : ClassificationDataLoader.t) (saved : list (dict Path)) (xml : Path)
    (results_o results_q : option (dict Q)) :
  call_load_model = Ok loaded →
  call_deepcopy loaded = Ok copy →
  ClassificationDataLoader.init w (data_dir w) = Ok data_loader →
  call_pipeline_run data_loader Accuracy.init loaded = Ok quantized →
  call_compress_model_weights quantized = Ok compressed →
  call_save_model compressed save_path = Ok saved →
  reported_path saved = Ok xml →
  call_pipeline_evaluate copy = Ok results_o →
  call_pipeline_evaluate compressed = Ok results_q →
  main w s0 =
    Ok (tt,
        {| store := store s0 ++ [compressed; copy];
           loads := S (loads s0);
           stdout := stdout s0
                     ++ [Stored_in (py_Path xml)]
                     ++ printed Accuracy_original results_o
                     ++ printed Accuracy_quantized results_q |}).
Proof.
  intros Hload Hcopy Hinit Hrun Hcompress Hsave Hxml Heval_o Heval_q. unfold main.
  unfold mbind at 1, M_bind, mthen.
  rewrite optimize_calls, Hload. simpl. rewrite Hcopy. simpl. rewrite Hinit. simpl.
  rewrite Hrun. simpl. rewrite Hcompress. simpl. rewrite Hsave. simpl.
  rewrite Hxml. simpl.
  rewrite (report_calls _ _ _ copy compressed results_o results_q); try done.
  - cbn [store loads stdout]. by rewrite <- !app_assoc.
  - apply store_lookup_second.
  - apply store_lookup_first.
Qed.

Lemma main_output_witness :
  main (H := sample_toolkit) flowers_world initial =
    Ok (tt,
        {| store := [] ++ [5%nat; 4%nat];
           loads := 1;
           stdout := [] ++ [Stored_in {| absolute := false;
                                         parts := ["model"; "optimized"; "flower.xml"] |}]
                        ++ [Accuracy_original (3 # 4)] ++ [] |}).
Proof.
  apply (main_output (H := sample_toolkit) flowers_world initial 4%nat 4%nat 5%nat 5%nat
           {| data_source := flowers;
              dataset := [ joinpath (joinpath flowers "roses") "r1.jpg";
                           joinpath (joinpath flowers "roses") "r2.png";
                           joinpath (joinpath flowers "daisy") "d1.jpg" ];
              class_names := ["daisy"; "roses"] |}
           [[("model", joinpath save_path "flower.xml")]]
           (joinpath save_path "flower.xml")
           (Some [("accuracy", 3 # 4)]) None).
  - reflexivity.
  - reflexivity.
  - reflexivity.
  - reflexivity.
  - reflexivity.
  - reflexivity.
  - reflexivity.
  - reflexivity.
  - reflexivity.
Defined.

(** ** The inference and benchmark cells *)

(** X18: for an image that [PIL] opens and resizes to [h] by [h] with
    three bands, [pre_process_image] answers an array of shape
    [(1, h, h, 3)] that holds the resized pixel values in their order:
    the layout stays height, width, channel. *)
Theorem pre_process_image_three_bands `{PIL} (imagePath : Path) (h : nat)
    (opened resized : PILImage) :
  Image_open imagePath = Ok opened →
  Image_resize opened (h, h) = Ok resized →
  pil_size resized = (h, h) →
  pil_bands resized = 3%nat →
  pre_process_image imagePath h =
    Ok {| shape := [1%nat; h; h; 3%nat]; data := pil_data resized |}.
Proof.
  intros Hopen Hresize Hsize Hbands. unfold pre_process_image.
  rewrite Hopen. simpl. rewrite Hresize. simpl.
  unfold np_reshape, np_array. rewrite Hsize, Hbands. simpl.
  rewrite decide_True by lia. done.
Qed.

Lemma pre_process_image_three_bands_witness :
  pre_process_image (H := sample_pil 3) flowers 180 =
    Ok {| shape := [1%nat; 180%nat; 180%nat; 3%nat];
          data := pil_data {| pil_size := (180, 180)%nat; pil_bands := 3;
                              pil_data := replicate (180 * 180 * 3) 0%Z |} |}.
Proof.
  apply (pre_process_image_three_bands (H := sample_pil 3) flowers 180
           {| pil_size := (2, 1)%nat; pil_bands := 3; pil_data := replicate (2 * 3) 7%Z |}
           {| pil_size := (180, 180)%nat; pil_bands := 3;
              pil_data := replicate (180 * 180 * 3) 0%Z |}).
  - reflexivity.
  - reflexivity.
  - reflexivity.
  - reflexivity.
Defined.

(** X19: an image that does not have three bands after resizing, such
    as a grey-scale or an RGBA image, makes [pre_process_image] fail with
    the [ValueError] of [reshape], for every positive [img_height]. *)
Theorem pre_process_image_other_bands `{PIL} (imagePath : Path) (h : nat)
    (opened resized : PILImage) :
  Image_open imagePath = Ok opened →
  Image_resize opened (h, h) = Ok resized →
  pil_size resized = (h, h) →
  pil_bands resized ≠ 3%nat →
  h ≠ 0%nat →
  pre_process_image imagePath h = Raise ValueError.
Proof.
  intros Hopen Hresize Hsize Hbands Hh. unfold pre_process_image.
  rewrite Hopen. simpl. rewrite Hresize. simpl.
  unfold np_reshape, np_array. rewrite Hsize. simpl.
  destruct (decide (pil_bands resized = 1%nat)) as [Hone|Hmore]; simpl.
  - rewrite decide_False; [done|]. nia.
  - rewrite decide_False; [done|]. nia.
Qed.

Lemma pre_process_image_other_bands_witness :
  pre_process_image (H := sample_pil 1) flowers 180 = Raise ValueError.
Proof.
  apply (pre_process_image_other_bands (H := sample_pil 1) flowers 180
           {| pil_size := (2, 1)%nat; pil_bands := 1; pil_data := replicate (2 * 1) 7%Z |}
           {| pil_size := (180, 180)%nat; pil_bands := 1;
              pil_data := replicate (180 * 180 * 1) 0%Z |}).
  - reflexivity.
  - reflexivity.
  - reflexivity.
  - discriminate.
  - discriminate.
Defined.

(** X20: the class named in the inference cell is the one at the first
    position of a maximal score, provided there are scores and no more
    scores than class names; without scores the cell raises [ValueError]. *)
Theorem predicted_class_name_spec (class_names : list string) (score : list Q) :
  predicted_class_name class_names [] = Raise ValueError ∧
  (score ≠ [] → (length score ≤ length class_names)%nat →
   ∃ p name,
     predicted_class_name class_names score = Ok name ∧
     is_argmax score p ∧ class_names !! p = Some name).
Proof.
  split; [done|]. intros Hscore Hlen.
  destruct (np_argmax_spec score Hscore) as (p & Hp & Harg).
  assert (p < length class_names)%nat as Hlt.
  { destruct Harg as (x & Hx%lookup_lt_Some & _). lia. }
  destruct (py_getitem_nonneg class_names (Z.of_nat p)) as (name & Hlook & Hitem); [lia|].
  exists p, name. unfold predicted_class_name. rewrite Hp. simpl.
  rewrite Nat2Z.id in Hlook. by rewrite Hitem.
Qed.

Lemma predicted_class_name_spec_witness :
  ∃ p name,
    predicted_class_name ["daisy"; "roses"; "tulips"] [1 # 10; 7 # 10; 2 # 10]%Q = Ok name ∧
    is_argmax [1 # 10; 7 # 10; 2 # 10]%Q p ∧
    ["daisy"; "roses"; "tulips"] !! p = Some name.
Proof.
  apply (predicted_class_name_spec ["daisy"; "roses"; "tulips"] [1 # 10; 7 # 10; 2 # 10]%Q).
  - discriminate.
  - simpl. lia.
Defined.

(** X21: the benchmark cells show the last eight lines of the tool's
    output, in order; an output of eight lines or fewer is shown whole,
    so a short output is no error. *)
Theorem benchmark_result_last_lines (benchmark_output : list string) :
  length (benchmark_result benchmark_output) = Nat.min 8 (length benchmark_output) ∧
  (∃ skipped, benchmark_output = skipped ++ benchmark_result benchmark_output) ∧
  ((length benchmark_output ≤ 8)%nat → benchmark_result benchmark_output = benchmark_output).
Proof.
  unfold benchmark_result, py_slice_from.
  change (-8 <? 0)%Z with true. cbv beta iota zeta.
  assert (Z.to_nat (Z.max (Z.of_nat (length benchmark_output) + -8) 0)
          = (length benchmark_output - 8)%nat) as -> by lia.
  split; [|split].
  - rewrite length_drop. lia.
  - exists (take (length benchmark_output - 8) benchmark_output). by rewrite take_drop.
  - intros Hshort. by replace (length benchmark_output - 8)%nat with 0%nat by lia.
Qed.
